(** * Database debug agent: a model of [database_debug_agent.py]

    The script reads one JavaScript source file, reports lines that look like
    SQL type-casting problems, and rewrites the file with regular-expression
    substitutions.  This development embeds

    - Python text ([str]) as lists of Unicode code points,
    - the fragment of [re] that the script's seven patterns use, with the
      backtracking order of the real engine,
    - the file accesses and [print] calls as a small monad over the files
      and the failures of [open], which also records what was done,

    and proves the properties of the specification against that embedding. *)

From Stdlib Require Import ZArith NArith Ascii String List Sorted Lia.
From stdpp Require Import base option list gmap.
Import ListNotations.
Local Open Scope list_scope.

(** ** Python text *)

Module PyStr.

(** A [str] is a sequence of code points. *)
Abbreviation pystr := (list N).

(** An ASCII literal of the source, as a [str]. *)
Definition py (s : string) : pystr :=
  List.map N_of_ascii (list_ascii_of_string s).

(** [str.isspace] for one code point, the test behind [str.strip()] and the
    pattern [\s] on text. *)
Definition isspace (c : N) : bool :=
  ((0x09 <=? c) && (c <=? 0x0D) || (0x1C <=? c) && (c <=? 0x20)
   || (c =? 0x85) || (c =? 0xA0) || (c =? 0x1680)
   || (0x2000 <=? c) && (c <=? 0x200A)
   || (c =? 0x2028) || (c =? 0x2029) || (c =? 0x202F) || (c =? 0x205F)
   || (c =? 0x3000))%N.

Fixpoint lstrip (s : pystr) : pystr :=
  match s with
  | c :: s' => if isspace c then lstrip s' else s
  | [] => []
  end.

Definition rstrip (s : pystr) : pystr := rev (lstrip (rev s)).

(** [s.strip()] *)
Definition strip (s : pystr) : pystr := rstrip (lstrip s).

(** [s.startswith(t)] *)
Fixpoint startswith (t s : pystr) : bool :=
  match t, s with
  | [], _ => true
  | a :: t', b :: s' => (a =? b)%N && startswith t' s'
  | _ :: _, [] => false
  end.

(** [t in s] *)
Fixpoint isin (t s : pystr) : bool :=
  startswith t s ||
  match s with
  | [] => false
  | _ :: s' => isin t s'
  end.

(** [s.split(sep)] for a one-character separator: always at least one
    piece, and a trailing separator yields a trailing empty piece. *)
Fixpoint split (sep : N) (s : pystr) : list pystr :=
  match s with
  | [] => [[]]
  | c :: s' =>
      if (c =? sep)%N then [] :: split sep s'
      else match split sep s' with
           | piece :: pieces => (c :: piece) :: pieces
           | [] => [[c]]
           end
  end.

(** [enumerate(xs, start)] *)
Fixpoint enumerate {A : Type} (xs : list A) (start : Z) : list (Z * A) :=
  match xs with
  | [] => []
  | x :: xs' => (start, x) :: enumerate xs' (start + 1)
  end.

(** [str.upper] restricted to ASCII letters; it agrees with Python on
    ASCII text and is used to run the scanner on sample inputs. *)
Definition ascii_upper (s : pystr) : pystr :=
  List.map (fun c => if ((0x61 <=? c) && (c <=? 0x7A))%N then (c - 0x20)%N else c) s.

(** The text has no whitespace at either end. *)
Definition trimmed (t : pystr) : Prop :=
  (forall x t', t = x :: t' -> isspace x = false) /\
  (forall x t', rev t = x :: t' -> isspace x = false).

(** The text [t] occurs in [s]. *)
Definition occurs (t s : pystr) : Prop := exists a b, s = a ++ t ++ b.

(** Two texts agree as far as the shorter one goes. *)
Fixpoint agree (s t : pystr) : bool :=
  match s, t with
  | a :: s', b :: t' => (a =? b)%N && agree s' t'
  | _, _ => true
  end.

(** No nonempty suffix of [s] agrees with [t]: wherever [t] is laid over
    the characters of [s], some character differs. *)
Fixpoint clear_of (t s : pystr) : bool :=
  match s with
  | [] => true
  | _ :: s' => negb (agree t s) && clear_of t s'
  end.

(** [t] overlaps no copy of itself. *)
Definition unbordered (t : pystr) : bool := clear_of t (tail t).

(** [t] and [s] cannot overlap, whichever comes first. *)
Definition apart (t s : pystr) : bool := clear_of t s && clear_of s t.

End PyStr.
Import PyStr.

(** ** The fragment of [re] used by the script *)

Module Re.

(** What one pattern position accepts. *)
Inductive cclass :=
| Chr (c : N)        (* a literal character, also an escaped one *)
| Dot                (* [.] : anything but a newline *)
| DotAll             (* [.] under [re.DOTALL] *)
| NotChr (c : N)     (* [[^c]] *)
| Space              (* [\s] *)
| Digit.             (* [[0-9]] *)

Inductive atom :=
| One (k : cclass)
| Star (k : cclass)       (* [k*], greedy *)
| Plus (k : cclass)       (* [k+], greedy *)
| StarLazy (k : cclass).  (* [k*?] *)

Definition regex := list atom.

Definition accepts (k : cclass) (c : N) : bool :=
  match k with
  | Chr a => (c =? a)%N
  | Dot => negb (c =? 0x0A)%N
  | DotAll => true
  | NotChr a => negb (c =? a)%N
  | Space => isspace c
  | Digit => ((0x30 <=? c) && (c <=? 0x39))%N
  end.

(** A literal run of characters. *)
Definition lits (t : pystr) : regex := List.map (fun c => One (Chr c)) t.
Definition lit (s : string) : regex := lits (py s).

(** Greedy repetition: take as many characters as the class allows, and
    give them back one at a time until the continuation [k] matches. *)
Fixpoint star_greedy (p : N -> bool) (k : pystr -> option nat) (s : pystr)
  : option nat :=
  match s with
  | c :: s' =>
      if p c then
        match star_greedy p k s' with
        | Some n => Some (S n)
        | None => k s
        end
      else k s
  | [] => k []
  end.

(** Lazy repetition: try the continuation first, take one more character
    only when it fails. *)
Fixpoint star_lazy (p : N -> bool) (k : pystr -> option nat) (s : pystr)
  : option nat :=
  match k s with
  | Some n => Some n
  | None =>
      match s with
      | c :: s' => if p c then S <$> star_lazy p k s' else None
      | [] => None
      end
  end.

(** [match_here r s]: the length of the match of [r] anchored at the start
    of [s] that the backtracking engine finds first, if there is one. *)
Fixpoint match_here (r : regex) (s : pystr) {struct r} : option nat :=
  match r with
  | [] => Some 0
  | One k :: r' =>
      match s with
      | c :: s' => if accepts k c then S <$> match_here r' s' else None
      | [] => None
      end
  | Star k :: r' => star_greedy (accepts k) (match_here r') s
  | Plus k :: r' =>
      match s with
      | c :: s' =>
          if accepts k c
          then S <$> star_greedy (accepts k) (match_here r') s'
          else None
      | [] => None
      end
  | StarLazy k :: r' => star_lazy (accepts k) (match_here r') s
  end.

(** [re.search(r, s)] as a truth value: is there a match at some offset. *)
Fixpoint search (r : regex) (s : pystr) : bool :=
  match match_here r s with
  | Some _ => true
  | None =>
      match s with
      | [] => false
      | _ :: s' => search r s'
      end
  end.

(** [re.sub(r, repl, s)] for a replacement without backslashes: scan from
    the left, replace each match found and resume after it.  [skip] counts
    the characters of the current match that are still to be dropped.
    Every pattern of the script starts with a literal character, so a
    match is never empty and never found at the end of the text (see
    [match_here_nonempty], [patterns_start_with_literal]); an empty match
    would keep the character it stands before. *)
Fixpoint sub_from (r : regex) (repl : pystr) (s : pystr) (skip : nat) : pystr :=
  match s with
  | [] => []
  | c :: s' =>
      match skip with
      | S k => sub_from r repl s' k
      | O =>
          match match_here r s with
          | Some (S n) => repl ++ sub_from r repl s' n
          | Some O => repl ++ c :: sub_from r repl s' 0
          | None => c :: sub_from r repl s' 0
          end
      end
  end.

Definition sub (r : regex) (repl : pystr) (s : pystr) : pystr :=
  sub_from r repl s 0.

End Re.
Import Re.

(** ** Records of the script *)

Module Data.

(** The dictionary returned by [analyze_error]. *)
Record analysis := Analysis {
  issue_type : pystr;
  problem : pystr;
  solution : pystr
}.

(** The dictionary appended by [find_sql_issues] for one finding. *)
Record issue_record := Issue {
  line : Z;
  content : pystr;
  issue : pystr;
  severity : pystr
}.

(** The four methods that [run_diagnosis] may call. *)
Inductive op := OpAnalyze | OpFind | OpFallback | OpFix.

(** What the [except Exception as e] clauses can catch here: a failed
    [open]/[read] (missing file, directory, permissions, undecodable
    bytes) or a failed [open] or write when writing. *)
Inductive exn := ReadError (p : pystr) | WriteError (p : pystr).

(** A printed line: literal text and the values formatted into it. *)
Inductive frag :=
| FLit (s : pystr)
| FInt (z : Z)
| FDict (a : analysis)
| FExc (e : exn).

Inductive event :=
| EvCall (o : op)                                  (* a method is entered *)
| EvReturn (o : op) (ok : bool)                    (* a fixing method returns [ok] *)
| EvPrint (m : list frag)
| EvExists (p : pystr) (found : bool)              (* [os.path.exists] *)
| EvRead (p : pystr) (got : option pystr)          (* [open(p, 'r')] and [read] *)
| EvWrite (p : pystr) (c : pystr) (ok : bool).     (* [open(p, 'w')] and [write] *)

#[global] Instance op_eq_dec : EqDecision op.
Proof. solve_decision. Defined.

(** The event is a file access. *)
Definition touches_file (e : event) : bool :=
  match e with
  | EvRead _ _ | EvWrite _ _ _ => true
  | _ => false
  end.

(** The event is the entry into one of the four methods. *)
Definition is_call (e : event) : bool :=
  match e with
  | EvCall _ => true
  | _ => false
  end.

(** The method [o] was entered. *)
Definition called (o : op) (tr : list event) : bool :=
  existsb (fun e => match e with
                    | EvCall o' => bool_decide (o' = o)
                    | _ => false
                    end) tr.

(** The fixing method [o] returned [ok]. *)
Definition returned (o : op) (ok : bool) (tr : list event) : bool :=
  existsb (fun e => match e with
                    | EvReturn o' ok' => bool_decide (o' = o) && Bool.eqb ok' ok
                    | _ => false
                    end) tr.

(** The line [m], without formatted values, was printed. *)
Definition printed (m : pystr) (tr : list event) : bool :=
  existsb (fun e => match e with
                    | EvPrint [FLit s] => bool_decide (s = m)
                    | _ => false
                    end) tr.

(** Some [open] for writing succeeded and the text was written. *)
Definition wrote (tr : list event) : bool :=
  existsb (fun e => match e with
                    | EvWrite _ _ ok => ok
                    | _ => false
                    end) tr.

End Data.
Import Data.

(** ** Files, output and exceptions *)

Module Sys.

(** A file system entry.  [text] is what [f.read()] returns after decoding
    and newline translation, or [None] when opening or reading raises;
    [writable] tells whether [open(p, 'w')] succeeds. *)
Record file := File { text : option pystr; writable : bool }.

Inductive result (A : Type) :=
| Ok (a : A)
| Raise (e : exn).
Arguments Ok {A} a.
Arguments Raise {A} e.

(** How a [with open(...)] block to come goes wrong, if it does.
    [OpenFails]: [open] raises and the file is untouched.  [BodyFails remnant]:
    [open] succeeds and the read or write inside the block raises; behind an
    [open(p, 'w')], which has emptied the file, the file is left holding
    [remnant], what a later read returns: the empty text, a part of the new
    text, or [None] for bytes that do not decode. *)
Inductive fault :=
| NoFault
| OpenFails
| BodyFails (remnant : option pystr).

(** What a run works on: the files by path, and the outcome of the [open]
    blocks to come.  [faults] tells, for the next blocks in order, whether
    and how the block fails for a reason outside the file itself (an
    interrupted call, a full disk, another process in the way); when the
    list is used up no such failure happens.  A path stands for its own
    file: two paths that name one file (links) are not modelled. *)
Record world := World { files : gmap pystr file; faults : list fault }.

(** The outcome of the next block, taken off the list. *)
Definition next_fault (w : world) : fault * world :=
  match faults w with
  | [] => (NoFault, w)
  | fault :: later => (fault, World (files w) later)
  end.

(** Whether the next block fails, for a block that only reads. *)
Definition next_open (w : world) : bool * world :=
  let '(fault, w) := next_fault w in
  (match fault with NoFault => false | _ => true end, w).

(** A computation runs on a world and yields a value or an exception, the
    new world, and the events it produced.  Standard output is assumed to
    accept every printed line. *)
Definition M (A : Type) : Type :=
  world -> result A * world * list event.

Definition ret {A : Type} (a : A) : M A := fun w => (Ok a, w, []).

Definition bind {A B : Type} (m : M A) (f : A -> M B) : M B :=
  fun w =>
    match m w with
    | (Ok a, w1, t1) => let '(r, w2, t2) := f a w1 in (r, w2, t1 ++ t2)
    | (Raise e, w1, t1) => (Raise e, w1, t1)
    end.

(** [try: body except Exception as e: handler e] *)
Definition try_except {A : Type} (body : M A) (handler : exn -> M A) : M A :=
  fun w =>
    match body w with
    | (Ok a, w1, t1) => (Ok a, w1, t1)
    | (Raise e, w1, t1) => let '(r, w2, t2) := handler e w1 in (r, w2, t1 ++ t2)
    end.

Definition emit (e : event) : M unit := fun w => (Ok tt, w, [e]).

Definition print (m : list frag) : M unit := emit (EvPrint m).

(** [os.path.exists(p)] *)
Definition path_exists (p : pystr) : M bool :=
  fun w =>
    let found := match files w !! p with Some _ => true | None => false end in
    (Ok found, w, [EvExists p found]).

(** [with open(p, 'r', encoding='utf-8') as f: f.read()] *)
Definition read_text (p : pystr) : M pystr :=
  fun w =>
    let '(fault, w) := next_open w in
    if fault then (Raise (ReadError p), w, [EvRead p None])
    else
      match files w !! p with
      | Some {| text := Some c |} => (Ok c, w, [EvRead p (Some c)])
      | _ => (Raise (ReadError p), w, [EvRead p None])
      end.

(** [with open(p, 'w', encoding='utf-8') as f: f.write(c)].  An [open]
    that fails (a fault, or a file that is not writable) leaves the file as
    it was.  An [open] that succeeds empties the file; the write then either
    completes, or raises and leaves what the fault names.  A missing path is
    created; the script never gets there, since each of its writes follows a
    successful read of the same path. *)
Definition write_text (p : pystr) (c : pystr) : M unit :=
  fun w =>
    let '(fault, w) := next_fault w in
    match fault with
    | OpenFails => (Raise (WriteError p), w, [EvWrite p c false])
    | _ =>
        match files w !! p with
        | Some {| writable := false |} =>
            (Raise (WriteError p), w, [EvWrite p c false])
        | _ =>
            match fault with
            | BodyFails remnant =>
                (Raise (WriteError p),
                 World (<[p := File remnant true]> (files w)) (faults w),
                 [EvWrite p c false])
            | _ =>
                (Ok tt,
                 World (<[p := File (Some c) true]> (files w)) (faults w),
                 [EvWrite p c true])
            end
        end
    end.

(** The computations form a monad; stdpp's notations [x ← m; k] and
    [m;; k] sequence them. *)
#[global] Instance M_ret : MRet M := @ret.
#[global] Instance M_bind : MBind M := fun A B f m => bind m f.

End Sys.
Import Sys.

(** ** The agent *)

Module Agent.

Section Methods.

(** [str.upper] follows the Unicode case tables of the interpreter, which
    are not part of the script; the methods take it as a parameter. *)
Variable str_upper : pystr -> pystr.

(** The attributes set by [__init__]. *)
Definition name : pystr := py "Database Debug Agent".
Definition specialty : pystr := py "SQL Type Casting and Database Query Issues".
Definition experience : pystr := py "15 years of PostgreSQL debugging".

Definition known_error : pystr :=
  py "operator does not exist: character varying = integer".

Definition type_casting : analysis :=
  {| issue_type := py "type_casting";
     problem := py "VARCHAR column being compared to INTEGER";
     solution := py "Add explicit type casting or fix parameter types" |}.

Definition unknown : analysis :=
  {| issue_type := py "unknown";
     problem := py "Unknown error";
     solution := py "Investigate further" |}.

Definition analyze_error (error_message : pystr) : M analysis :=
  emit (EvCall OpAnalyze);;
  print [FLit ([0x1F50D%N] ++ py " " ++ name ++ py " analyzing error: "
               ++ error_message)];;
  if isin known_error error_message
  then mret type_casting
  else mret unknown.

(** [r"WHERE.*=.*'[^']*'"] *)
Definition pat_string_comparison : regex :=
  lit "WHERE" ++ [Star Dot] ++ lit "=" ++ [Star Dot] ++ lit "'"
  ++ [Star (NotChr 0x27)] ++ lit "'".

(** [r"\$[0-9]+"] *)
Definition pat_parameter : regex := lit "$" ++ [Plus Digit].

Definition msg_string_comparison : pystr :=
  py "String literal comparison - check if column is VARCHAR".
Definition msg_parameter : pystr :=
  py "Parameter usage - verify type matches column type".
Definition msg_union : pystr :=
  py "UNION query - ensure all SELECT statements have matching column types".

(** The body of the loop over the lines: three independent checks, each
    appending to [issues]. *)
Definition scan_line (issues : list issue_record) (i : Z) (l : pystr)
  : list issue_record :=
  let issues :=
    if search pat_string_comparison l
    then issues ++ [ {| line := i; content := strip l;
                        issue := msg_string_comparison;
                        severity := py "medium" |} ]
    else issues in
  let issues :=
    if search pat_parameter l
    then issues ++ [ {| line := i; content := strip l;
                        issue := msg_parameter;
                        severity := py "high" |} ]
    else issues in
  let issues :=
    if isin (py "UNION") (str_upper l)
    then issues ++ [ {| line := i; content := strip l;
                        issue := msg_union;
                        severity := py "high" |} ]
    else issues in
  issues.

(** [for i, line in enumerate(lines, start)], with the findings so far in
    [issues]. *)
Definition scan_lines (lines : list pystr) (start : Z)
  (issues : list issue_record) : list issue_record :=
  fold_left (fun issues '(i, l) => scan_line issues i l)
            (enumerate lines start) issues.

(** The scan of a text that has been read. *)
Definition scan_content (content : pystr) : list issue_record :=
  let issues := [] in
  let lines := split 0x0A content in
  scan_lines lines 1 issues.

Definition find_sql_issues (file_path : pystr) : M (list issue_record) :=
  emit (EvCall OpFind);;
  print [FLit ([0x1F50D%N] ++ py " Scanning " ++ file_path
               ++ py " for SQL issues...")];;
  try_except
    (content ← read_text file_path;
     mret (scan_content content))
    (fun e =>
       print [FLit ([0x274C%N] ++ py " Error reading file: "); FExc e];;
       mret []).


(** The four substitutions of [fix_sql_query], in the order applied. *)

(** [r'\[userId\.toString\(\)\]'] *)
Definition pat_user_id : regex := lit "[userId.toString()]".
Definition repl_user_id : pystr := py "[userId]".

(** [r"WHERE.*result\s*=\s*'win'"] *)
Definition pat_result_win : regex :=
  lit "WHERE" ++ [Star Dot] ++ lit "result" ++ [Star Space] ++ lit "="
  ++ [Star Space] ++ lit "'win'".
Definition repl_result_win : pystr := py "WHERE result = 'win'::VARCHAR".

(** [r'LIMIT \$2'] *)
Definition pat_limit : regex := lit "LIMIT $2".
Definition repl_limit : pystr := py "LIMIT $2::INTEGER".

(** [r'winnings > 0'] *)
Definition pat_winnings : regex := lit "winnings > 0".
Definition repl_winnings : pystr := py "winnings::NUMERIC > 0".

(** The text transformation between the read and the write. *)
Definition fix_content (content : pystr) : pystr :=
  let content := sub pat_user_id repl_user_id content in
  let content := sub pat_result_win repl_result_win content in
  let content := sub pat_limit repl_limit content in
  let content := sub pat_winnings repl_winnings content in
  content.

Definition fix_sql_query (file_path : pystr) : M bool :=
  emit (EvCall OpFix);;
  print [FLit ([0x1F527%N] ++ py " " ++ name ++ py " fixing SQL issues in "
               ++ file_path)];;
  ok ← try_except
    (content ← read_text file_path;
     let content := fix_content content in
     write_text file_path content;;
     print [FLit ([0x2705%N] ++ py " SQL query fixes applied successfully!")];;
     mret true)
    (fun e =>
       print [FLit ([0x274C%N] ++ py " Error fixing SQL query: "); FExc e];;
       mret false);
  emit (EvReturn OpFix ok);;
  mret ok.

Definition fallback_query : pystr := py "
    // Simple fallback query - just get basic bet information
    const simpleQuery = `
      SELECT 
        'bet_activity' as activity_type,
        'Bet placed' as description,
        -amount as amount_change,
        timestamp,
        'bet' as category
      FROM bets
      WHERE user_id = $1
      ORDER BY timestamp DESC
      LIMIT $2
    `;
    
    const result = await db.query(simpleQuery, [userId, limit]);
    ".

(** [r'const bettingQuery = `.*?`;'] with [flags=re.DOTALL] *)
Definition pat_betting_query : regex :=
  lit "const bettingQuery = `" ++ [StarLazy DotAll] ++ lit "`;".

(** The text transformation between the read and the write. *)
Definition fallback_content (content : pystr) : pystr :=
  sub pat_betting_query (strip fallback_query) content.

Definition create_simple_fallback_query (file_path : pystr) : M bool :=
  emit (EvCall OpFallback);;
  print [FLit ([0x1F6E0%N; 0xFE0F%N] ++ py " Creating simple fallback query for "
               ++ file_path)];;
  ok ← try_except
    (content ← read_text file_path;
     let content := fallback_content content in
     write_text file_path content;;
     print [FLit ([0x2705%N] ++ py " Simple fallback query created!")];;
     mret true)
    (fun e =>
       print [FLit ([0x274C%N] ++ py " Error creating fallback query: "); FExc e];;
       mret false);
  emit (EvReturn OpFallback ok);;
  mret ok.

Definition target_file : pystr := py "controllers/historyController.js".

Definition run_diagnosis : M bool :=
  print [FLit ([0x1F680%N] ++ py " " ++ name ++ py " starting diagnosis...")];;
  print [FLit (py "Specialty: " ++ specialty)];;
  print [FLit (py "Experience: " ++ experience)];;
  found ← path_exists target_file;
  if negb found then
    print [FLit ([0x274C%N] ++ py " Target file " ++ target_file
                 ++ py " not found!")];;
    mret false
  else
    let error_msg := py "operator does not exist: character varying = integer" in
    analysis ← analyze_error error_msg;
    print [FLit ([0x1F4CA%N] ++ py " Analysis: "); FDict analysis];;
    issues ← find_sql_issues target_file;
    print [FLit ([0x1F50D%N] ++ py " Found "); FInt (Z.of_nat (length issues));
           FLit (py " potential issues")];;
    print [FLit ([0x1F527%N] ++ py " Applying fixes...")];;
    fallback_ok ← create_simple_fallback_query target_file;
    if (fallback_ok : bool) then
      print [FLit ([0x2705%N] ++ py " Simple fallback query applied!")];;
      mret true
    else
      fix_ok ← fix_sql_query target_file;
      if (fix_ok : bool) then
        print [FLit ([0x2705%N] ++ py " SQL query fixes applied!")];;
        mret true
      else
        print [FLit ([0x274C%N] ++ py " All fix attempts failed")];;
        mret false.

(** The script run as a program: [agent = DatabaseDebugAgent()], then the
    diagnosis and two closing lines that depend on its result. *)
Definition main : M unit :=
  success ← run_diagnosis;
  if (success : bool) then
    print [FLit ([0x1F389%N] ++ py " Database Debug Agent completed successfully!")];;
    print [FLit ([0x1F504%N] ++ py " Please restart the backend to apply fixes")]
  else
    print [FLit ([0x274C%N] ++ py " Database Debug Agent failed to fix the issue")];;
    print [FLit ([0x1F50D%N] ++ py " Manual intervention may be required")].

End Methods.

(** Which of the three checks of a line produced a finding. *)
Definition check_rank (r : issue_record) : nat :=
  if bool_decide (issue r = msg_string_comparison) then 0
  else if bool_decide (issue r = msg_parameter) then 1
  else 2.

(** [a] is reported before [b]: on an earlier line, or on the same line by
    an earlier check. *)
Definition reported_before (a b : issue_record) : Prop :=
  (line a < line b)%Z \/ (line a = line b /\ check_rank a < check_rank b).

(** What a finding may look like: the message of one of the three checks
    with the severity that check assigns. *)
Definition well_tagged (r : issue_record) : Prop :=
  (issue r = msg_string_comparison /\ severity r = py "medium") \/
  (issue r = msg_parameter /\ severity r = py "high") \/
  (issue r = msg_union /\ severity r = py "high").

(** The line holds [$] followed by a digit. *)
Definition has_parameter (l : pystr) : Prop :=
  exists a d b, l = a ++ 0x24%N :: d :: b /\ (0x30 <= d <= 0x39)%N.

(** The line holds [WHERE], later [=], later two quotes with no quote
    between them, and no newline from [WHERE] to the first of the quotes. *)
Definition has_string_comparison (l : pystr) : Prop :=
  exists a b c d e,
    l = a ++ py "WHERE" ++ b ++ py "=" ++ c ++ py "'" ++ d ++ py "'" ++ e /\
    Forall (fun x => x <> 0x0A%N) (b ++ c) /\
    Forall (fun x => x <> 0x27%N) d.

(** The text holds a block: the token and, somewhere behind it, the closing
    delimiter. *)
Definition has_block (content : pystr) : Prop :=
  exists a body rest,
    content = a ++ py "const bettingQuery = `" ++ body ++ py "`;" ++ rest.

(** The second pattern of [fix_sql_query] behind its [WHERE.*]. *)
Definition result_win_tail : regex :=
  lits (py "result") ++ [Star Space] ++ lits (py "=") ++ [Star Space]
  ++ lits (py "'win'").

(** A sample text with two blocks. *)
Definition two_blocks : pystr :=
  py "const bettingQuery = `a`; const bettingQuery = `b`;".

End Agent.
Import Agent.

(** * Properties *)

(** ** Text *)

Section TextFacts.

Implicit Types s t u v : pystr.

Lemma startswith_app t s : startswith t (t ++ s) = true.
Proof. induction t as [|a t IH]; simpl; [done|]. by rewrite N.eqb_refl. Qed.

Lemma startswith_inv t s : startswith t s = true -> exists b, s = t ++ b.
Proof.
  revert s. induction t as [|a t IH]; intros s H; simpl in H.
  - by exists s.
  - destruct s as [|c s]; [done|].
    apply andb_true_iff in H as [Hc Ht]. apply N.eqb_eq in Hc as ->.
    destruct (IH _ Ht) as [b ->]. by exists b.
Qed.

(** Python's [in] on text decides [occurs]. *)
Lemma isin_occurs t s : isin t s = true <-> occurs t s.
Proof.
  split.
  - induction s as [|c s IH]; simpl; intros H.
    + rewrite orb_false_r in H. apply startswith_inv in H as [b ->].
      by exists [], b.
    + apply orb_true_iff in H as [H|H].
      * apply startswith_inv in H as [b ->]. by exists [], b.
      * destruct (IH H) as (a & b & ->). by exists (c :: a), b.
  - intros (a & b & ->). induction a as [|c a IH]; simpl.
    + pose proof (startswith_app t b) as H.
      destruct (t ++ b); simpl; by rewrite H.
    + by rewrite IH, orb_true_r.
Qed.

Lemma isin_not_occurs t s : isin t s = false <-> ~ occurs t s.
Proof.
  rewrite <- isin_occurs. destruct (isin t s); split; try done.
Qed.

Lemma occurs_app_l t s a : occurs t s -> occurs t (a ++ s).
Proof. intros (x & y & ->). exists (a ++ x), y. by rewrite <- app_assoc. Qed.

Lemma occurs_app_r t s b : occurs t s -> occurs t (s ++ b).
Proof. intros (x & y & ->). exists x, (y ++ b). by rewrite <- !app_assoc. Qed.

Lemma occurs_cons t s c : occurs t s -> occurs t (c :: s).
Proof. apply (occurs_app_l t s [c]). Qed.

(** A prefix [t] of [b ++ s] either lies within [b] or runs over its end
    and continues as a prefix of [s]. *)
Lemma startswith_split t b s :
  startswith t (b ++ s) = true ->
  (exists b', b = t ++ b') \/
  (exists t2, t = b ++ t2 /\ t2 <> [] /\ startswith t2 s = true).
Proof.
  revert b. induction t as [|a t IH]; intros b H.
  - left. by exists b.
  - destruct b as [|c b].
    + right. exists (a :: t). by repeat split.
    + simpl in H. apply andb_true_iff in H as [Hc Ht].
      apply N.eqb_eq in Hc as ->.
      destruct (IH _ Ht) as [[b' ->]|(t2 & -> & Hne & H2)].
      * left. by exists b'.
      * right. by exists t2.
Qed.

Lemma agree_sym s t : agree s t = agree t s.
Proof.
  revert t. induction s as [|a s IH]; intros [|b t]; simpl; try done.
  by rewrite IH, N.eqb_sym.
Qed.

Lemma startswith_agree t s v : startswith t (s ++ v) = true -> agree t s = true.
Proof.
  revert s. induction t as [|a t IH]; intros [|c s] H; simpl in *; try done.
  apply andb_true_iff in H as [-> Ht]. simpl. eauto.
Qed.

Lemma clear_of_suffix t s s1 s2 :
  clear_of t s = true -> s = s1 ++ s2 -> s2 <> [] -> agree t s2 = false.
Proof.
  revert s. induction s1 as [|c s1 IH]; intros s H -> Hne; simpl in *.
  - destruct s2 as [|c s2]; [done|]. simpl in H.
    apply andb_true_iff in H as [H _]. by apply negb_true_iff in H.
  - apply andb_true_iff in H as [_ H]. by eapply IH.
Qed.

(** Before the leftmost occurrence of an unbordered [t], no position
    starts a copy of [t], not even one that runs into that occurrence. *)
Lemma no_start_before_first t pre b1 b2 v :
  unbordered t = true -> ~ occurs t pre ->
  pre = b1 ++ b2 -> b2 <> [] ->
  startswith t (b2 ++ t ++ v) = false.
Proof.
  intros Hu Hno -> Hne.
  destruct (startswith t (b2 ++ t ++ v)) eqn:E; [|done]. exfalso.
  apply startswith_split in E as [[b' ->]|(t2 & Ht & Hne2 & H2)].
  - apply Hno. by exists b1, b'.
  - apply startswith_agree in H2. rewrite agree_sym in H2.
    destruct b2 as [|c b2]; [done|].
    assert (agree t t2 = false) as Hf; [|congruence].
    apply (clear_of_suffix t (tail t) b2 t2); [exact Hu| by rewrite Ht |done].
Qed.

Lemma split_nonempty sep s : split sep s <> [].
Proof.
  destruct s as [|c s]; simpl; [done|].
  destruct (c =? sep)%N; [done|]. by destruct (split sep s).
Qed.

Lemma enumerate_length {A : Type} (xs : list A) start :
  length (enumerate xs start) = length xs.
Proof. revert start. induction xs; intros; simpl; [done|]. by rewrite IHxs. Qed.

End TextFacts.

(** ** The matcher *)

Section MatcherFacts.

Implicit Types (r : regex) (s t u v repl : pystr).

Lemma match_here_lits_app t r s :
  match_here (lits t ++ r) (t ++ s) = (fun n => length t + n) <$> match_here r s.
Proof.
  unfold lits. induction t as [|a t IH]; simpl.
  - by destruct (match_here r s).
  - rewrite N.eqb_refl, IH. by destruct (match_here r s).
Qed.

Lemma match_here_lits_start t r s :
  is_Some (match_here (lits t ++ r) s) -> startswith t s = true.
Proof.
  unfold lits. revert s. induction t as [|a t IH]; intros s H; simpl in *; [done|].
  destruct s as [|c s]; [by destruct H|].
  destruct (c =? a)%N eqn:E; [|by destruct H].
  apply N.eqb_eq in E as ->. rewrite N.eqb_refl. simpl. apply IH.
  destruct (match_here _ s); [done|by destruct H].
Qed.

Lemma match_here_lits_none t r s :
  startswith t s = false -> match_here (lits t ++ r) s = None.
Proof.
  intros H. destruct (match_here (lits t ++ r) s) eqn:E; [|done].
  assert (is_Some (match_here (lits t ++ r) s)) as Hs by (rewrite E; eauto).
  apply match_here_lits_start in Hs. congruence.
Qed.

(** A literal pattern matches exactly where the text starts with it. *)
Lemma match_here_lits t s :
  match_here (lits t) s = if startswith t s then Some (length t) else None.
Proof.
  destruct (startswith t s) eqn:E.
  - apply startswith_inv in E as [b ->].
    pose proof (match_here_lits_app t [] b) as H. rewrite app_nil_r in H.
    rewrite H. simpl. f_equal. lia.
  - pose proof (match_here_lits_none t [] s E) as H. by rewrite app_nil_r in H.
Qed.

(** The greedy star finds a match whenever some split works. *)
Lemma star_greedy_complete p k pre s :
  Forall (fun c => p c = true) pre -> is_Some (k s) ->
  is_Some (star_greedy p k (pre ++ s)).
Proof.
  intros Hp Hk. induction Hp as [|c pre Hc _ IH]; simpl.
  - destruct s as [|c s]; simpl; [done|].
    destruct (p c); [|done]. by destruct (star_greedy p k s).
  - rewrite Hc. destruct IH as [n ->]. eauto.
Qed.

(** The lazy star stops at the first place where the rest matches. *)
Lemma star_lazy_first p k body s n :
  Forall (fun c => p c = true) body ->
  (forall b1 b2, body = b1 ++ b2 -> b2 <> [] -> k (b2 ++ s) = None) ->
  k s = Some n ->
  star_lazy p k (body ++ s) = Some (length body + n).
Proof.
  intros Hp. induction Hp as [|c body Hc _ IH]; intros Hno Hk.
  - simpl. destruct s; simpl; by rewrite Hk.
  - pose proof (Hno [] (c :: body) eq_refl) as H0. simpl in *.
    rewrite H0, Hc by done.
    rewrite IH; [done| |done].
    intros b1 b2 -> Hne. by apply (Hno (c :: b1) b2).
Qed.

Lemma search_here r s : is_Some (match_here r s) -> search r s = true.
Proof. intros [n H]. destruct s; simpl; by rewrite H. Qed.

Lemma search_app r a s : search r s = true -> search r (a ++ s) = true.
Proof.
  intros H. induction a as [|c a IH]; simpl; [done|].
  rewrite IH. by destruct (match_here r (c :: a ++ s)).
Qed.

Lemma search_cons_false r c s :
  search r (c :: s) = false ->
  match_here r (c :: s) = None /\ search r s = false.
Proof. simpl. by destruct (match_here r (c :: s)). Qed.

(** A pattern that starts with a single character has no empty match. *)
Lemma match_here_nonempty k r s :
  match_here (One k :: r) s <> Some 0 /\ match_here (One k :: r) [] = None.
Proof.
  split; [|done]. destruct s as [|c s]; simpl; [done|].
  destruct (accepts k c); [|done]. by destruct (match_here r s).
Qed.

(** Without a match, [re.sub] returns its input. *)
Lemma sub_no_match r repl s : search r s = false -> sub r repl s = s.
Proof.
  unfold sub. induction s as [|c s IH]; intros H; [done|].
  apply search_cons_false in H as [Hm Hs]. simpl in *. rewrite Hm.
  by rewrite IH.
Qed.

(** The characters of a match that are still to be dropped. *)
Lemma sub_from_drop r repl a s :
  sub_from r repl (a ++ s) (length a) = sub_from r repl s 0.
Proof.
  induction a as [|c a IH]; simpl; [|done].
  destruct s; [done|]. reflexivity.
Qed.

(** Text before the first match is copied. *)
Lemma sub_from_keep r repl pre s :
  (forall b1 b2, pre = b1 ++ b2 -> b2 <> [] -> match_here r (b2 ++ s) = None) ->
  sub_from r repl (pre ++ s) 0 = pre ++ sub_from r repl s 0.
Proof.
  induction pre as [|c pre IH]; intros H; [done|].
  simpl. pose proof (H [] (c :: pre) eq_refl) as H0. simpl in H0.
  rewrite H0 by done. f_equal. apply IH.
  intros b1 b2 -> Hne. by apply (H (c :: b1) b2).
Qed.

(** A nonempty match is replaced and the scan resumes after it. *)
Lemma sub_from_match r repl m s :
  m <> [] -> match_here r (m ++ s) = Some (length m) ->
  sub_from r repl (m ++ s) 0 = repl ++ sub_from r repl s 0.
Proof.
  intros Hne H. destruct m as [|c m]; [done|].
  simpl in *. rewrite H. by rewrite sub_from_drop.
Qed.

(** Once some position matches, the replacement text is in the output. *)
Lemma sub_occurs r repl s :
  match_here r [] = None -> search r s = true -> occurs repl (sub r repl s).
Proof.
  intros Hnil. unfold sub. induction s as [|c s IH]; intros H.
  - simpl in H. by rewrite Hnil in H.
  - simpl in *. destruct (match_here r (c :: s)) as [[|n]|].
    + by exists [], (c :: sub_from r repl s 0).
    + by exists [], (sub_from r repl s n).
    + by apply occurs_cons, IH.
Qed.

(** A literal pattern that cannot overlap [t] leaves every occurrence of
    [t] in place. *)
Lemma sub_lits_keeps_from pat repl t u v skip :
  apart pat t = true -> skip <= length u ->
  occurs t (sub_from (lits pat) repl (u ++ t ++ v) skip).
Proof.
  intros Hap. apply andb_true_iff in Hap as [Hpt Htp].
  revert skip. induction u as [|c u IH]; intros skip Hskip.
  - assert (skip = 0) as -> by (simpl in Hskip; lia). simpl.
    rewrite (sub_from_keep (lits pat) repl t v).
    + by exists [], (sub_from (lits pat) repl v 0).
    + intros b1 b2 -> Hne. rewrite match_here_lits.
      destruct (startswith pat (b2 ++ v)) eqn:E; [|done].
      apply startswith_agree in E.
      by rewrite (clear_of_suffix pat _ b1 b2 Hpt eq_refl Hne) in E.
  - simpl. destruct skip as [|k]; [|apply IH; simpl in Hskip; lia].
    rewrite match_here_lits.
    destruct (startswith pat (c :: u ++ t ++ v)) eqn:E;
      [|apply occurs_cons, IH; lia].
    apply (startswith_split pat (c :: u)) in E as [[b' E]|(t2 & E & Hne & H2)].
    + destruct pat as [|a pat]; simpl.
      * apply occurs_app_l, occurs_cons, IH. lia.
      * apply occurs_app_l, IH. apply (f_equal length) in E.
        simpl in E. rewrite length_app in E. lia.
    + exfalso. apply startswith_agree in H2. rewrite agree_sym in H2.
      by rewrite (clear_of_suffix t _ (c :: u) t2 Htp E Hne) in H2.
Qed.

Lemma sub_lits_keeps pat repl t s :
  apart pat t = true -> occurs t s -> occurs t (sub (lits pat) repl s).
Proof.
  intros Hap (u & v & ->). apply sub_lits_keeps_from; [done|lia].
Qed.

(** The seven patterns of the script start with a literal character, and
    its five replacement texts hold no backslash, so [re.sub] inserts them
    as they are. *)
Example patterns_start_with_literal :
  Forall (fun r => exists c r', r = One (Chr c) :: r')
    [pat_string_comparison; pat_parameter; pat_user_id; pat_result_win;
     pat_limit; pat_winnings; pat_betting_query].
Proof. repeat (apply Forall_cons_2; [eexists _, _; reflexivity|]). constructor. Qed.

Example replacements_without_backslash :
  Forall (fun repl => isin (py "\") repl = false)
    [repl_user_id; repl_result_win; repl_limit; repl_winnings;
     strip fallback_query].
Proof. repeat (apply Forall_cons_2; [vm_compute; reflexivity|]). constructor. Qed.

End MatcherFacts.

(** ** Running the methods *)

(** Unfolds the monad so that a method applied to a world becomes the
    sequence of its file accesses. *)
Ltac run_io :=
cbv beta iota zeta delta
  [mbind mret M_bind M_ret bind ret try_except emit print negb
   next_open next_fault files faults
   path_exists read_text write_text
   analyze_error find_sql_issues fix_sql_query
   create_simple_fallback_query run_diagnosis].

(** Runs a method on a world given by its two fields, splitting on the
    outcome of each [open] it reaches. *)
Ltac run_cases :=
  repeat first
    [ progress run_io
    | match goal with
      | |- context [match ?l with [] => _ | _ :: _ => _ end] =>
          is_var l; destruct l as [|? ?]
      | |- context [match ?f with NoFault => _ | OpenFails => _
                                  | BodyFails _ => _ end] =>
          is_var f; destruct f as [| |?]
      | |- context [match ?r with Some _ => _ | None => _ end] =>
          is_var r; destruct r
      end ].

Section MethodRuns.

Variable str_upper : pystr -> pystr.
Implicit Types (w : world) (fs : gmap pystr file) (p c : pystr).

Lemma fix_sql_query_ok fs p c :
  fs !! p = Some (File (Some c) true) ->
  fix_sql_query p (World fs []) =
    (Ok true, World (<[p := File (Some (fix_content c)) true]> fs) [],
     [EvCall OpFix;
      EvPrint [FLit ([0x1F527%N] ++ py " " ++ name ++ py " fixing SQL issues in " ++ p)];
      EvRead p (Some c);
      EvWrite p (fix_content c) true;
      EvPrint [FLit ([0x2705%N] ++ py " SQL query fixes applied successfully!")];
      EvReturn OpFix true]).
Proof. intros H. run_io. rewrite H. run_io. rewrite H. reflexivity. Qed.

Lemma create_simple_fallback_query_ok fs p c :
  fs !! p = Some (File (Some c) true) ->
  create_simple_fallback_query p (World fs []) =
    (Ok true, World (<[p := File (Some (fallback_content c)) true]> fs) [],
     [EvCall OpFallback;
      EvPrint [FLit ([0x1F6E0%N; 0xFE0F%N] ++ py " Creating simple fallback query for " ++ p)];
      EvRead p (Some c);
      EvWrite p (fallback_content c) true;
      EvPrint [FLit ([0x2705%N] ++ py " Simple fallback query created!")];
      EvReturn OpFallback true]).
Proof. intros H. run_io. rewrite H. run_io. rewrite H. reflexivity. Qed.

End MethodRuns.

(** ** The scanner *)

Section ScanFacts.

Variable str_upper : pystr -> pystr.
Implicit Types (issues : list issue_record) (i : Z) (l c : pystr).

(** The findings of one line, by the outcome of its three checks. *)
Lemma scan_line_cases issues i l :
  exists a b u : bool,
    scan_line str_upper issues i l =
      issues
      ++ (if a then [Issue i (strip l) msg_string_comparison (py "medium")] else [])
      ++ (if b then [Issue i (strip l) msg_parameter (py "high")] else [])
      ++ (if u then [Issue i (strip l) msg_union (py "high")] else []).
Proof.
  exists (search pat_string_comparison l), (search pat_parameter l),
         (isin (py "UNION") (str_upper l)).
  unfold scan_line.
  destruct (search pat_string_comparison l), (search pat_parameter l),
           (isin (py "UNION") (str_upper l));
    rewrite <- ?app_assoc, ?app_nil_r; reflexivity.
Qed.

Lemma scan_line_app issues i l :
  scan_line str_upper issues i l = issues ++ scan_line str_upper [] i l.
Proof.
  unfold scan_line.
  destruct (search pat_string_comparison l), (search pat_parameter l),
           (isin (py "UNION") (str_upper l));
    rewrite <- ?app_assoc, ?app_nil_r; reflexivity.
Qed.

Lemma scan_lines_cons l lines start issues :
  scan_lines str_upper (l :: lines) start issues =
  scan_lines str_upper lines (start + 1) (scan_line str_upper issues start l).
Proof. reflexivity. Qed.

Lemma scan_lines_app lines start issues :
  scan_lines str_upper lines start issues =
  issues ++ scan_lines str_upper lines start [].
Proof.
  revert start issues. induction lines as [|l lines IH]; intros start issues.
  - simpl. by rewrite app_nil_r.
  - rewrite !scan_lines_cons, IH, (IH _ (scan_line _ [] _ _)).
    by rewrite scan_line_app, app_assoc.
Qed.

Lemma scan_lines_step l lines start :
  scan_lines str_upper (l :: lines) start [] =
  scan_line str_upper [] start l ++ scan_lines str_upper lines (start + 1) [].
Proof. by rewrite scan_lines_cons, scan_lines_app. Qed.

Lemma scan_line_length i l : length (scan_line str_upper [] i l) <= 3.
Proof.
  destruct (scan_line_cases [] i l) as (a & b & u & ->).
  destruct a, b, u; simpl; lia.
Qed.

Lemma scan_lines_length lines start :
  length (scan_lines str_upper lines start []) <= 3 * length lines.
Proof.
  revert start. induction lines as [|l lines IH]; intros start; [simpl; lia|].
  rewrite scan_lines_step, length_app. simpl.
  pose proof (scan_line_length start l). pose proof (IH (start + 1)%Z). lia.
Qed.

Lemma scan_line_tagged i l : Forall well_tagged (scan_line str_upper [] i l).
Proof.
  destruct (scan_line_cases [] i l) as (a & b & u & ->).
  destruct a, b, u; simpl; repeat apply Forall_cons_2; try apply Forall_nil;
    unfold well_tagged; simpl; auto 6.
Qed.

Lemma scan_lines_tagged lines start :
  Forall well_tagged (scan_lines str_upper lines start []).
Proof.
  revert start. induction lines as [|l lines IH]; intros start; [constructor|].
  rewrite scan_lines_step. apply Forall_app. split; [apply scan_line_tagged|apply IH].
Qed.

Lemma scan_line_on_line i l :
  Forall (fun r => line r = i) (scan_line str_upper [] i l).
Proof.
  destruct (scan_line_cases [] i l) as (a & b & u & ->).
  destruct a, b, u; simpl; repeat constructor.
Qed.

Lemma scan_lines_from lines start :
  Forall (fun r => (start <= line r)%Z) (scan_lines str_upper lines start []).
Proof.
  revert start. induction lines as [|l lines IH]; intros start; [constructor|].
  rewrite scan_lines_step. apply Forall_app. split.
  - eapply Forall_impl; [apply scan_line_on_line|]. simpl. intros r ->. lia.
  - eapply Forall_impl; [apply IH|]. simpl. intros r Hr. lia.
Qed.

Lemma scan_line_sorted i l :
  StronglySorted reported_before (scan_line str_upper [] i l).
Proof.
  destruct (scan_line_cases [] i l) as (a & b & u & ->).
  destruct a, b, u; simpl;
    repeat first [apply SSorted_nil | apply SSorted_cons
                 | apply Forall_nil | apply Forall_cons_2];
    try exact I; unfold reported_before;
    (right; split; [reflexivity|vm_compute; lia]).
Qed.

Lemma StronglySorted_app_lt {A : Type} (R : A -> A -> Prop) (xs ys : list A) :
  StronglySorted R xs -> StronglySorted R ys ->
  Forall (fun x => Forall (R x) ys) xs ->
  StronglySorted R (xs ++ ys).
Proof.
  intros Hx Hy Hxy. induction Hx as [|x xs Hxs IH Hx]; simpl; [done|].
  apply Forall_cons in Hxy as [Hxy1 Hxy2].
  constructor; [by apply IH|]. apply Forall_app. by split.
Qed.

Lemma scan_lines_sorted lines start :
  StronglySorted reported_before (scan_lines str_upper lines start []).
Proof.
  revert start. induction lines as [|l lines IH]; intros start; [constructor|].
  rewrite scan_lines_step.
  apply StronglySorted_app_lt; [apply scan_line_sorted|apply IH|].
  eapply Forall_impl; [apply scan_line_on_line|]. simpl. intros a Ha.
  eapply Forall_impl; [apply (scan_lines_from lines (start + 1))|].
  simpl. intros b Hb. left. lia.
Qed.

End ScanFacts.

(** * The claims *)

Section Claims.

Variable str_upper : pystr -> pystr.
Implicit Types (w : world) (fs : gmap pystr file) (p c : pystr).

(** ** [analyze_error] *)

(** C1, as the code has it.  The record returned by [analyze_error] is a
    function of the message alone: the fixed type-casting record for the
    known error string and for every message that contains it, the unknown
    record for every message that does not contain it.  The world is left
    as it was. *)
Theorem analyze_error_by_substring (error_message : pystr) w :
  (analyze_error known_error w).1.1 = Ok type_casting /\
  (occurs known_error error_message ->
     (analyze_error error_message w).1.1 = Ok type_casting) /\
  (~ occurs known_error error_message ->
     (analyze_error error_message w).1.1 = Ok unknown) /\
  (forall w', (analyze_error error_message w').1.1
              = (analyze_error error_message w).1.1) /\
  (analyze_error error_message w).1.2 = w.
Proof.
  repeat split.
  - intros H. apply isin_occurs in H. run_io. simpl. by rewrite H.
  - intros H. apply isin_not_occurs in H. run_io. simpl. by rewrite H.
  - intros w'. run_io. simpl. by destruct (isin known_error error_message).
  - run_io. simpl. by destruct (isin known_error error_message).
Qed.

(** C1, as stated, fails: a message that is not the known error string but
    contains it is classified as a type-casting error, not as unknown. *)
Lemma analyze_error_not_exact_match :
  ~ (forall (error_message : pystr) w,
       error_message <> known_error ->
       (analyze_error error_message w).1.1 = Ok unknown).
Proof.
  intros H.
  specialize (H (py "ERROR: operator does not exist: character varying = integer")
                (World ∅ [])).
  vm_compute in H. by specialize (H ltac:(discriminate)).
Qed.

(** ** [find_sql_issues] *)

Lemma find_sql_issues_result w p :
  exists w' tr,
    find_sql_issues str_upper p w =
      (Ok (match files w !! p with
           | Some {| text := Some c |} =>
               if (next_open w).1 then [] else scan_content str_upper c
           | _ => []
           end), w', tr) /\
    files w' = files w.
Proof.
  destruct w as [fs later].
  run_cases; destruct (fs !! p) as [[[c|] wr]|]; eauto.
Qed.

(** C4.  [find_sql_issues] always returns a list and never raises, and it
    leaves the files as they were.  For a file that reads as the text [c]
    the list is the findings of the scan of [c], or empty when the [open]
    fails, and has at most three findings per line of [c]; for a path that
    cannot be read it is empty. *)
Theorem find_sql_issues_total_bounded w p :
  exists issues w' tr,
    find_sql_issues str_upper p w = (Ok issues, w', tr) /\
    files w' = files w /\
    match files w !! p with
    | Some {| text := Some c |} =>
        issues = (if (next_open w).1 then [] else scan_content str_upper c) /\
        length issues <= 3 * length (split 0x0A c)
    | _ => issues = []
    end.
Proof.
  destruct (find_sql_issues_result w p) as (w' & tr & H & Hfiles).
  eexists _, w', tr. split; [exact H|]. split; [exact Hfiles|].
  destruct (files w !! p) as [[[c|] wr]|]; try done.
  split; [done|]. destruct (next_open w).1; [simpl; lia|apply scan_lines_length].
Qed.

(** C9.  Every finding returned by [find_sql_issues] carries the message of
    one of the three checks with that check's severity: "medium" for the
    string comparison, "high" for the parameter and for UNION.  No finding
    has severity "low". *)
Theorem find_sql_issues_severity w p :
  exists issues w' tr,
    find_sql_issues str_upper p w = (Ok issues, w', tr) /\
    Forall (fun r => well_tagged r /\ severity r <> py "low") issues.
Proof.
  destruct (find_sql_issues_result w p) as (w' & tr & H & _).
  eexists _, w', tr. split; [exact H|].
  assert (forall r, well_tagged r -> well_tagged r /\ severity r <> py "low") as Hlow.
  { intros r Hr. split; [done|].
    destruct Hr as [[_ ->]|[[_ ->]|[_ ->]]]; discriminate. }
  destruct (files w !! p) as [[[c|] wr]|]; try constructor.
  destruct (next_open w).1; [constructor|].
  eapply Forall_impl; [apply scan_lines_tagged|exact Hlow].
Qed.

(** C10.  The findings returned by [find_sql_issues] are in report order:
    each one comes before all later ones, either on an earlier line or on
    the same line from an earlier check (string comparison, then parameter,
    then UNION). *)
Theorem find_sql_issues_order w p :
  exists issues w' tr,
    find_sql_issues str_upper p w = (Ok issues, w', tr) /\
    StronglySorted reported_before issues.
Proof.
  destruct (find_sql_issues_result w p) as (w' & tr & H & _).
  eexists _, w', tr. split; [exact H|].
  destruct (files w !! p) as [[[c|] wr]|]; try constructor.
  destruct (next_open w).1; [constructor|apply scan_lines_sorted].
Qed.

(** ** [run_diagnosis] *)

(** C7.  When the target path does not exist, [run_diagnosis] prints its
    three header lines, checks the path, prints the not-found line and
    returns [False]; it enters no method, opens no file, and leaves the
    world as it was. *)
Theorem run_diagnosis_target_missing w :
  files w !! target_file = None ->
  exists tr,
    run_diagnosis str_upper w = (Ok false, w, tr) /\
    tr = [EvPrint [FLit ([0x1F680%N] ++ py " " ++ name ++ py " starting diagnosis...")];
          EvPrint [FLit (py "Specialty: " ++ specialty)];
          EvPrint [FLit (py "Experience: " ++ experience)];
          EvExists target_file false;
          EvPrint [FLit ([0x274C%N] ++ py " Target file " ++ target_file
                         ++ py " not found!")]] /\
    Forall (fun e => touches_file e = false /\ is_call e = false) tr.
Proof.
  intros H. destruct w as [fs later]. cbn [files] in H.
  eexists. split; [|split; [reflexivity|]].
  - run_io. rewrite H. reflexivity.
  - repeat apply Forall_cons_2; try apply Forall_nil; done.
Qed.

(** C6.  [run_diagnosis] always returns a truth value, and its fixing steps
    go fallback first: when [create_simple_fallback_query] returns [True]
    the run returns [True] and [fix_sql_query] is not entered;
    [fix_sql_query] is entered exactly when the fallback returned [False],
    and then the run returns what [fix_sql_query] returned.  The fallback
    itself is entered exactly when the target path exists. *)
Theorem run_diagnosis_fallback_first w :
  exists ok w' tr,
    run_diagnosis str_upper w = (Ok ok, w', tr) /\
    (returned OpFallback true tr = true ->
       ok = true /\ called OpFix tr = false) /\
    called OpFix tr = returned OpFallback false tr /\
    (called OpFix tr = true ->
       returned OpFix ok tr = true /\ returned OpFix (negb ok) tr = false) /\
    (ok = false -> is_Some (files w !! target_file) ->
       returned OpFallback false tr = true /\ returned OpFix false tr = true) /\
    (called OpFallback tr = true <-> is_Some (files w !! target_file)).
Proof.
  assert (isin known_error
            (py "operator does not exist: character varying = integer") = true)
    as E by (vm_compute; reflexivity).
  destruct w as [fs later]. cbn [files].
  destruct (fs !! target_file) as [[[c|] [|]]|] eqn:H.
  all: repeat first
    [ progress (run_cases; rewrite ?E, ?H, ?lookup_insert_eq) ].
  all: do 3 eexists; (split; [reflexivity|]).
  all: cbn [app]; cbv [called returned existsb]; cbn.
  all: repeat split; intros; try done; eauto.
Qed.

(** ** [create_simple_fallback_query] *)

(** C5.  On a readable, writable file in which the block pattern matches
    nowhere, and with no [open] failing, [create_simple_fallback_query]
    returns [True], writes back exactly the text it read, and so leaves the
    files as they were. *)
Theorem create_simple_fallback_query_no_block fs p c :
  fs !! p = Some (File (Some c) true) ->
  search pat_betting_query c = false ->
  exists tr,
    create_simple_fallback_query p (World fs []) = (Ok true, World fs [], tr) /\
    In (EvWrite p c true) tr /\
    returned OpFallback true tr = true.
Proof.
  intros H Hno. eexists. split; [|split].
  - rewrite (create_simple_fallback_query_ok fs p c H).
    unfold fallback_content. rewrite (sub_no_match _ _ _ Hno).
    rewrite (insert_id fs p _ H). reflexivity.
  - simpl. auto 6.
  - reflexivity.
Qed.

(** The block token, the closing delimiter and the replacement text. *)
Lemma pat_betting_query_parts :
  pat_betting_query
  = lits (py "const bettingQuery = `") ++ [StarLazy DotAll] ++ lits (py "`;").
Proof. reflexivity. Qed.

Lemma match_here_block body rest :
  ~ occurs (py "`;") body ->
  match_here pat_betting_query
    (py "const bettingQuery = `" ++ body ++ py "`;" ++ rest)
  = Some (length (py "const bettingQuery = `" ++ body ++ py "`;")).
Proof.
  intros Hno. rewrite pat_betting_query_parts, match_here_lits_app.
  cbn [app match_here].
  rewrite (star_lazy_first _ _ body (py "`;" ++ rest) 2).
  - simpl. rewrite !length_app. simpl. f_equal; lia.
  - apply Forall_forall. done.
  - intros b1 b2 -> Hne. rewrite match_here_lits.
    rewrite (no_start_before_first (py "`;") (b1 ++ b2) b1 b2 rest); done.
  - by rewrite match_here_lits, startswith_app.
Qed.

Lemma fallback_content_leftmost_block (pre body rest : pystr) :
  ~ occurs (py "const bettingQuery = `") pre ->
  ~ occurs (py "`;") body ->
  fallback_content
    (pre ++ py "const bettingQuery = `" ++ body ++ py "`;" ++ rest)
  = pre ++ strip fallback_query ++ fallback_content rest.
Proof.
  intros Hpre Hbody. unfold fallback_content, sub.
  rewrite sub_from_keep.
  - f_equal.
    pose proof (sub_from_match pat_betting_query (strip fallback_query)
                  (py "const bettingQuery = `" ++ body ++ py "`;") rest) as Hm.
    rewrite <- !app_assoc in Hm. apply Hm; [done|].
    by apply match_here_block.
  - intros b1 b2 -> Hne. rewrite pat_betting_query_parts.
    apply match_here_lits_none.
    by apply (no_start_before_first _ (b1 ++ b2) b1 b2).
Qed.

(** C3, as the code has it.  Let the file be readable and writable, let no
    [open] fail, and let the text start with a part [pre] free of the block
    token, then the token, a body free of the closing delimiter, and the
    closing delimiter.  [create_simple_fallback_query] returns [True] and
    writes [pre], then the fallback block in place of the span from the
    token to that first closing delimiter, then the rest of the text treated
    in the same way: blocks that follow are replaced as well. *)
Theorem create_simple_fallback_query_every_block fs p (pre body rest : pystr) :
  fs !! p = Some (File (Some (pre ++ py "const bettingQuery = `" ++ body
                              ++ py "`;" ++ rest)) true) ->
  ~ occurs (py "const bettingQuery = `") pre ->
  ~ occurs (py "`;") body ->
  exists tr,
    create_simple_fallback_query p (World fs []) =
      (Ok true,
       World (<[p := File (Some (pre ++ strip fallback_query
                                 ++ fallback_content rest)) true]> fs) [],
       tr).
Proof.
  intros H Hpre Hbody. eexists.
  rewrite (create_simple_fallback_query_ok fs p _ H).
  by rewrite fallback_content_leftmost_block.
Qed.

(** ** [fix_sql_query] *)

(** Where none of the four patterns matches, the four substitutions change
    nothing. *)
Lemma fix_content_no_match c :
  search pat_user_id c = false ->
  search pat_result_win c = false ->
  search pat_limit c = false ->
  search pat_winnings c = false ->
  fix_content c = c.
Proof.
  intros H1 H2 H3 H4. unfold fix_content.
  rewrite (sub_no_match _ _ _ H1), (sub_no_match _ _ _ H2).
  by rewrite (sub_no_match _ _ _ H3), (sub_no_match _ _ _ H4).
Qed.

(** The second substitution finds a match wherever the fragment stands. *)
Lemma search_result_win a b :
  search pat_result_win (a ++ py "WHERE result = 'win'" ++ b) = true.
Proof.
  apply search_app, search_here.
  change (py "WHERE result = 'win'")
    with (py "WHERE" ++ py " " ++ py "result" ++ py " " ++ py "="
          ++ py " " ++ py "'win'").
  change pat_result_win
    with (lits (py "WHERE") ++ [Star Dot] ++ lits (py "result") ++ [Star Space]
          ++ lits (py "=") ++ [Star Space] ++ lits (py "'win'")).
  rewrite <- !app_assoc, match_here_lits_app.
  apply fmap_is_Some. cbn [app match_here].
  apply star_greedy_complete; [by repeat constructor|].
  rewrite match_here_lits_app. apply fmap_is_Some. cbn [app match_here].
  apply star_greedy_complete; [by repeat constructor|].
  rewrite match_here_lits_app. apply fmap_is_Some. cbn [app match_here].
  apply star_greedy_complete; [by repeat constructor|].
  rewrite match_here_lits, startswith_app. eauto.
Qed.

(** Scenario A on texts: the fragment ends up annotated. *)
Lemma fix_content_result_win c :
  occurs (py "WHERE result = 'win'") c ->
  occurs (py "WHERE result = 'win'::VARCHAR") (fix_content c).
Proof.
  intros Hc. unfold fix_content.
  apply (sub_lits_keeps (py "winnings > 0")); [by vm_compute|].
  apply (sub_lits_keeps (py "LIMIT $2")); [by vm_compute|].
  apply sub_occurs; [by vm_compute|].
  assert (occurs (py "WHERE result = 'win'") (sub pat_user_id repl_user_id c))
    as (a & b & ->).
  { apply (sub_lits_keeps (py "[userId.toString()]")); [by vm_compute|done]. }
  apply search_result_win.
Qed.

(** C8.  On a readable, writable file whose text contains
    [WHERE result = 'win'], with no [open] failing, [fix_sql_query] returns
    [True] and the text it writes, the result of the four substitutions,
    contains [WHERE result = 'win'::VARCHAR]. *)
Theorem fix_sql_query_result_win fs p c :
  fs !! p = Some (File (Some c) true) ->
  occurs (py "WHERE result = 'win'") c ->
  exists c' tr,
    fix_sql_query p (World fs []) =
      (Ok true, World (<[p := File (Some c') true]> fs) [], tr) /\
    c' = fix_content c /\
    In (EvWrite p c' true) tr /\
    occurs (py "WHERE result = 'win'::VARCHAR") c'.
Proof.
  intros H Hc. exists (fix_content c). eexists. split; [|split; [|split]].
  - apply (fix_sql_query_ok fs p c H).
  - reflexivity.
  - simpl. auto 6.
  - by apply fix_content_result_win.
Qed.

End Claims.

(** * Concrete runs *)

(** The fallback literal has the 427 characters of the source, 417 once
    stripped. *)
Example fallback_query_length :
  length fallback_query = 427 /\ length (strip fallback_query) = 417.
Proof. split; reflexivity. Qed.

(** A three-line text, scanned with the ASCII case mapping. *)
Example scan_content_sample :
  List.map (fun r => (line r, check_rank r))
    (scan_content ascii_upper (py "WHERE a = 'x' AND b = $1
select 1 union select 2
LIMIT $2"))
  = [(1%Z, 0); (1%Z, 1); (2%Z, 2); (3%Z, 1)].
Proof. vm_compute. reflexivity. Qed.

(** Scenario B: [LIMIT $2] becomes [LIMIT $2::INTEGER]. *)
Example fix_content_limit :
  fix_content (py "ORDER BY t LIMIT $2") = py "ORDER BY t LIMIT $2::INTEGER".
Proof. vm_compute. reflexivity. Qed.

(** Scenario C: a block with a newline inside is replaced by the fallback
    block. *)
Example fallback_content_multiline :
  fallback_content (py "a; const bettingQuery = `SELECT
1`; b")
  = py "a; " ++ strip fallback_query ++ py " b".
Proof. vm_compute. reflexivity. Qed.

(** A message that contains the known error classifies as type casting; so
    does the known error itself, and an unrelated message is unknown. *)
Lemma analyze_error_by_substring_witness :
  (analyze_error (py "ERROR:  operator does not exist: character varying = integer at character 42") (World ∅ [])).1.1
    = Ok type_casting /\
  (analyze_error (py "relation does not exist") (World ∅ [])).1.1 = Ok unknown.
Proof.
  split.
  - destruct (analyze_error_by_substring
                (py "ERROR:  operator does not exist: character varying = integer at character 42") (World ∅ []))
      as (_ & Hin & _).
    apply Hin. apply isin_occurs. vm_compute. reflexivity.
  - destruct (analyze_error_by_substring (py "relation does not exist") (World ∅ []))
      as (_ & _ & Hout & _).
    apply Hout. apply isin_not_occurs. vm_compute. reflexivity.
Defined.

(** C2, as stated, fails: after one run on [LIMIT $2] the third pattern still
    matches, and the second run appends the annotation again. *)
Lemma fix_content_not_idempotent :
  fix_content (py "LIMIT $2") = py "LIMIT $2::INTEGER" /\
  search pat_limit (fix_content (py "LIMIT $2")) = true /\
  fix_content (fix_content (py "LIMIT $2")) = py "LIMIT $2::INTEGER::INTEGER" /\
  fix_content (fix_content (py "LIMIT $2")) <> fix_content (py "LIMIT $2").
Proof. vm_compute. repeat split; discriminate. Qed.

(** C3, as stated, fails: on a file with two blocks the second block is not
    left unchanged; both are replaced by the fallback block. *)
Lemma create_simple_fallback_query_replaces_both :
  files (create_simple_fallback_query target_file
           (World {[ target_file := File (Some two_blocks) true ]} [])).1.2
    !! target_file
  = Some (File (Some (strip fallback_query ++ py " " ++ strip fallback_query)) true)
  /\ strip fallback_query ++ py " " ++ strip fallback_query
     <> strip fallback_query ++ py " const bettingQuery = `b`;"
  /\ isin (py "const bettingQuery = `b`;")
          (strip fallback_query ++ py " " ++ strip fallback_query) = false.
Proof. vm_compute. repeat split; discriminate. Qed.

(** The first block is replaced up to its own closing delimiter and the
    second block after it is replaced too. *)
Lemma create_simple_fallback_query_every_block_witness :
  exists tr,
    create_simple_fallback_query target_file
      (World {[ target_file := File (Some (py "// history
" ++ py "const bettingQuery = `" ++ py "SELECT 1" ++ py "`;"
         ++ py " const bettingQuery = `b`; end")) true ]} [])
    = (Ok true,
       World (<[ target_file :=
                   File (Some (py "// history
" ++ strip fallback_query
                        ++ fallback_content (py " const bettingQuery = `b`; end")))
                        true ]>
                {[ target_file := File (Some (py "// history
" ++ py "const bettingQuery = `" ++ py "SELECT 1" ++ py "`;"
         ++ py " const bettingQuery = `b`; end")) true ]}) [],
       tr).
Proof.
  apply (create_simple_fallback_query_every_block _ target_file
           (py "// history
") (py "SELECT 1") (py " const bettingQuery = `b`; end")).
  - vm_compute. reflexivity.
  - apply isin_not_occurs. vm_compute. reflexivity.
  - apply isin_not_occurs. vm_compute. reflexivity.
Defined.

(** A file without any block is written back as it was read. *)
Lemma create_simple_fallback_query_no_block_witness :
  exists tr,
    create_simple_fallback_query target_file
      (World {[ target_file := File (Some (py "const simpleQuery = `SELECT 1`;")) true ]} [])
    = (Ok true,
       World {[ target_file := File (Some (py "const simpleQuery = `SELECT 1`;")) true ]} [],
       tr) /\
    In (EvWrite target_file (py "const simpleQuery = `SELECT 1`;") true) tr /\
    returned OpFallback true tr = true.
Proof.
  apply (create_simple_fallback_query_no_block
           {[ target_file := File (Some (py "const simpleQuery = `SELECT 1`;")) true ]}
           target_file (py "const simpleQuery = `SELECT 1`;")).
  - vm_compute. reflexivity.
  - vm_compute. reflexivity.
Defined.

(** Without any file the target is missing and the run stops after the
    existence check. *)
Lemma run_diagnosis_target_missing_witness :
  exists tr, run_diagnosis ascii_upper (World ∅ []) = (Ok false, World ∅ [], tr).
Proof.
  destruct (run_diagnosis_target_missing ascii_upper (World ∅ [])) as (tr & H & _).
  - vm_compute. reflexivity.
  - exists tr. exact H.
Defined.

(** Scenario A on a one-line file. *)
Lemma fix_sql_query_result_win_witness :
  exists c' tr,
    fix_sql_query target_file
      (World {[ target_file := File (Some (py "WHERE result = 'win'")) true ]} [])
    = (Ok true,
       World (<[ target_file := File (Some c') true ]>
                {[ target_file := File (Some (py "WHERE result = 'win'")) true ]}) [],
       tr) /\
    c' = fix_content (py "WHERE result = 'win'") /\
    In (EvWrite target_file c' true) tr /\
    occurs (py "WHERE result = 'win'::VARCHAR") c'.
Proof.
  apply (fix_sql_query_result_win
           {[ target_file := File (Some (py "WHERE result = 'win'")) true ]}
           target_file (py "WHERE result = 'win'")).
  - vm_compute. reflexivity.
  - apply isin_occurs. vm_compute. reflexivity.
Defined.

(** Three runs on a target with two blocks.  With no failure the fallback
    succeeds and [fix_sql_query] is not entered.  When the second [open]
    fails (the read of the fallback) [fix_sql_query] is entered, succeeds,
    and the run returns [True].  On a read-only target both steps fail and
    the run returns [False]. *)
Lemma run_diagnosis_fallback_first_witness :
  (exists w' tr,
     run_diagnosis ascii_upper
       (World {[ target_file := File (Some two_blocks) true ]} [])
     = (Ok true, w', tr) /\
     called OpFix tr = false) /\
  (exists w' tr,
     run_diagnosis ascii_upper
       (World {[ target_file := File (Some two_blocks) true ]}
              [NoFault; OpenFails])
     = (Ok true, w', tr) /\
     called OpFix tr = true /\ returned OpFix true tr = true) /\
  (exists w' tr,
     run_diagnosis ascii_upper
       (World {[ target_file := File (Some two_blocks) false ]} [])
     = (Ok false, w', tr) /\
     called OpFix tr = true /\ returned OpFix false tr = true).
Proof.
  split; [|split].
  - destruct (run_diagnosis_fallback_first ascii_upper
                (World {[ target_file := File (Some two_blocks) true ]} []))
      as (ok & w' & tr & Hrun & Hfallback & _).
    pose proof (f_equal snd Hrun) as Htr. cbn [snd] in Htr.
    assert (returned OpFallback true tr = true) as Hret.
    { rewrite <- Htr. vm_compute. reflexivity. }
    destruct (Hfallback Hret) as [-> Hfix]. eauto.
  - destruct (run_diagnosis_fallback_first ascii_upper
                (World {[ target_file := File (Some two_blocks) true ]}
                       [NoFault; OpenFails]))
      as (ok & w' & tr & Hrun & _ & Hcall & Hfix & _).
    pose proof (f_equal snd Hrun) as Htr. cbn [snd] in Htr.
    pose proof (f_equal (fun r => fst (fst r)) Hrun) as Hok. cbn [fst] in Hok.
    assert (ok = true) as ->.
    { vm_compute in Hok. by injection Hok. }
    assert (returned OpFallback false tr = true) as Hret.
    { rewrite <- Htr. vm_compute. reflexivity. }
    rewrite <- Hcall in Hret. destruct (Hfix Hret) as [Htrue _]. eauto.
  - destruct (run_diagnosis_fallback_first ascii_upper
                (World {[ target_file := File (Some two_blocks) false ]} []))
      as (ok & w' & tr & Hrun & _ & Hcall & Hfix & _).
    pose proof (f_equal snd Hrun) as Htr. cbn [snd] in Htr.
    pose proof (f_equal (fun r => fst (fst r)) Hrun) as Hok. cbn [fst] in Hok.
    assert (ok = false) as ->.
    { vm_compute in Hok. by injection Hok. }
    assert (returned OpFallback false tr = true) as Hret.
    { rewrite <- Htr. vm_compute. reflexivity. }
    rewrite <- Hcall in Hret. destruct (Hfix Hret) as [Hfalse _]. eauto.
Defined.

(** * Further properties of the code *)

(** ** More on the matcher *)

Section MatcherInversion.

Implicit Types (r : regex) (s t u v repl : pystr) (k : pystr -> option nat).

(** What a successful literal prefix tells about the text. *)
Lemma match_here_lits_inv t r s n :
  match_here (lits t ++ r) s = Some n ->
  exists rest m, s = t ++ rest /\ match_here r rest = Some m /\ n = length t + m.
Proof.
  intros H.
  assert (is_Some (match_here (lits t ++ r) s)) as Hs by (rewrite H; eauto).
  apply match_here_lits_start, startswith_inv in Hs as [rest ->].
  rewrite match_here_lits_app in H.
  destruct (match_here r rest) as [m|] eqn:E; [|done]. simpl in H.
  injection H as <-. by exists rest, m.
Qed.

(** A greedy star that succeeds took some run of accepted characters and
    then the continuation matched. *)
Lemma star_greedy_inv p k s n :
  star_greedy p k s = Some n ->
  exists pre rest m,
    s = pre ++ rest /\ Forall (fun c => p c = true) pre /\
    k rest = Some m /\ n = length pre + m.
Proof.
  revert n. induction s as [|c s IH]; intros n H; simpl in H.
  - exists [], [], n. by repeat split.
  - destruct (p c) eqn:Hc; [|by exists [], (c :: s), n].
    destruct (star_greedy p k s) as [m|] eqn:E.
    + injection H as <-. destruct (IH m eq_refl) as (pre & rest & m' & -> & Hp & Hk & ->).
      exists (c :: pre), rest, m'. repeat split; [by constructor|done].
    + by exists [], (c :: s), n.
Qed.

Lemma star_lazy_inv p k s n :
  star_lazy p k s = Some n ->
  exists pre rest m,
    s = pre ++ rest /\ Forall (fun c => p c = true) pre /\
    k rest = Some m /\ n = length pre + m.
Proof.
  revert n. induction s as [|c s IH]; intros n H; simpl in H.
  - destruct (k []) as [m|] eqn:E; [|done]. injection H as <-.
    exists [], [], m. by repeat split.
  - destruct (k (c :: s)) as [m|] eqn:E.
    + injection H as <-. exists [], (c :: s), m. by repeat split.
    + destruct (p c) eqn:Hc; [|done].
      destruct (star_lazy p k s) as [m|] eqn:E'; [|done]. injection H as <-.
      destruct (IH m eq_refl) as (pre & rest & m' & -> & Hp & Hk & ->).
      exists (c :: pre), rest, m'. repeat split; [by constructor|done].
Qed.

(** The lazy star finds a match whenever some split works. *)
Lemma star_lazy_complete p k pre s :
  Forall (fun c => p c = true) pre -> is_Some (k s) ->
  is_Some (star_lazy p k (pre ++ s)).
Proof.
  intros Hp [n Hk]. induction Hp as [|c pre Hc _ IH]; simpl.
  - destruct s; simpl; rewrite Hk; eauto.
  - destruct (k (c :: pre ++ s)); [eauto|]. rewrite Hc.
    destruct IH as [m ->]. eauto.
Qed.

(** The greedy star gives back nothing when no longer run lets the
    continuation match. *)
Lemma star_greedy_stop p k s :
  (forall b1 b2, s = b1 ++ b2 -> b1 <> [] ->
     Forall (fun c => p c = true) b1 -> k b2 = None) ->
  star_greedy p k s = k s.
Proof.
  induction s as [|c s IH]; intros H; simpl; [done|].
  destruct (p c) eqn:Hc; [|done].
  rewrite IH.
  - rewrite (H [c] s); [done..|]. by repeat constructor.
  - intros b1 b2 -> Hne Hp. apply (H (c :: b1) b2); [done..|]. by constructor.
Qed.

Lemma star_greedy_longest p k pre s n :
  Forall (fun c => p c = true) pre ->
  (forall b1 b2, s = b1 ++ b2 -> b1 <> [] ->
     Forall (fun c => p c = true) b1 -> k b2 = None) ->
  k s = Some n ->
  star_greedy p k (pre ++ s) = Some (length pre + n).
Proof.
  intros Hp Hno Hk. induction Hp as [|c pre Hc _ IH]; simpl.
  - by rewrite star_greedy_stop.
  - by rewrite Hc, IH.
Qed.

(** A match is no longer than the text. *)
Lemma match_here_le r s n : match_here r s = Some n -> n <= length s.
Proof.
  revert s n. induction r as [|[k|k|k|k] r IH]; intros s n H; simpl in H.
  - injection H as <-. lia.
  - destruct s as [|c s]; [done|]. destruct (accepts k c); [|done].
    destruct (match_here r s) as [m|] eqn:E; [|done]. injection H as <-.
    apply IH in E. simpl. lia.
  - apply star_greedy_inv in H as (pre & rest & m & -> & _ & Hk & ->).
    apply IH in Hk. rewrite length_app. lia.
  - destruct s as [|c s]; [done|]. destruct (accepts k c); [|done].
    destruct (star_greedy _ _ s) as [m|] eqn:E; [|done]. injection H as <-.
    apply star_greedy_inv in E as (pre & rest & m' & -> & _ & Hk & ->).
    apply IH in Hk. simpl. rewrite length_app. lia.
  - apply star_lazy_inv in H as (pre & rest & m & -> & _ & Hk & ->).
    apply IH in Hk. rewrite length_app. lia.
Qed.

(** [re.search] succeeds exactly when some suffix of the text starts with a
    match. *)
Lemma search_true r s :
  search r s = true <-> exists a b, s = a ++ b /\ is_Some (match_here r b).
Proof.
  split.
  - induction s as [|c s IH]; simpl; intros H.
    + destruct (match_here r []) eqn:E; [|done]. exists [], []. rewrite E. eauto.
    + destruct (match_here r (c :: s)) eqn:E.
      * exists [], (c :: s). rewrite E. eauto.
      * destruct (IH H) as (a & b & -> & Hb). by exists (c :: a), b.
  - intros (a & b & -> & Hb). by apply search_app, search_here.
Qed.

(** The first replacement made by [re.sub]: the text before the leftmost
    match is copied, the match is replaced, and the scan goes on behind
    it. *)
Lemma sub_first_match r repl s :
  (forall u, match_here r u <> Some 0) ->
  search r s = true ->
  exists pre m rest,
    s = pre ++ m ++ rest /\ m <> [] /\
    match_here r (m ++ rest) = Some (length m) /\
    (forall b1 b2, pre = b1 ++ b2 -> b2 <> [] ->
       match_here r (b2 ++ m ++ rest) = None) /\
    sub r repl s = pre ++ repl ++ sub r repl rest.
Proof.
  intros Hpos. unfold sub. induction s as [|c s IH]; simpl; intros H.
  - destruct (match_here r []) as [[|n]|] eqn:E; try done.
    + by destruct (Hpos []).
    + apply match_here_le in E. simpl in E. lia.
  - destruct (match_here r (c :: s)) as [[|n]|] eqn:E.
    + by destruct (Hpos (c :: s)).
    + pose proof (match_here_le _ _ _ E) as Hle. simpl in Hle.
      exists [], (c :: take n s), (drop n s).
      assert (length (take n s) = n) as Hlen by (rewrite length_take; lia).
      simpl. rewrite take_drop, Hlen. repeat split; try done.
      * intros b1 b2 Hb Hne. symmetry in Hb. apply app_eq_nil in Hb as [_ ->]. done.
      * f_equal. pose proof (sub_from_drop r repl (take n s) (drop n s)) as Hd.
        by rewrite take_drop, Hlen in Hd.
    + destruct (IH H) as (pre & m & rest & -> & Hne & Hm & Hpre & Hsub).
      exists (c :: pre), m, rest. repeat split; try done.
      * intros [|c' b1] b2 Hb Hne2.
        -- simpl in Hb. subst b2. exact E.
        -- injection Hb as -> ->. by apply (Hpre b1 b2).
      * simpl. by rewrite Hsub.
Qed.

End MatcherInversion.

(** ** The fallback substitution *)

Section FallbackFacts.

Implicit Types (s t u v c : pystr).

(** Where the text before, a replacement and the rest of an output meet,
    a copy of [t] that cannot overlap the replacement starts either in the
    rest or in the text before, and then lies in it entirely. *)
Lemma start_in_output t pre repl out a b :
  apart t repl = true ->
  pre ++ repl ++ out = a ++ b ->
  startswith t b = true ->
  (exists a', out = a' ++ b) \/
  (exists b1 p2, pre = b1 ++ t ++ p2 /\ b = t ++ p2 ++ repl ++ out).
Proof.
  intros Hap. apply andb_true_iff in Hap as [Htr Hrt].
  revert a. induction pre as [|x pre IH]; intros a E Hb.
  - simpl in E.
    destruct (decide (length a < length repl)) as [Hlt|Hge].
    + exfalso.
      assert (repl = a ++ drop (length a) repl /\ drop (length a) repl <> []
              /\ b = drop (length a) repl ++ out) as (Hr & Hne & ->).
      { apply (f_equal (take (length a))) in E as E1.
        rewrite take_app_le, take_app_length in E1 by lia.
        apply (f_equal (drop (length a))) in E as E2.
        rewrite drop_app_le, drop_app_length in E2 by lia.
        repeat split; [by rewrite <- E1 at 1; rewrite take_drop|..|done].
        intros Hd. apply (f_equal length) in Hd. rewrite length_drop in Hd.
        simpl in Hd. lia. }
      apply startswith_agree in Hb.
      by rewrite (clear_of_suffix t repl _ _ Htr Hr Hne) in Hb.
    + left. exists (drop (length repl) a).
      apply (f_equal (drop (length repl))) in E.
      rewrite drop_app_length, drop_app_le in E by lia. done.
  - destruct a as [|y a].
    + simpl in E. subst b. right.
      apply (startswith_split t (x :: pre)) in Hb as [[b' Hb]|(t2 & Ht & Hne & H2)].
      * exists [], b'. split; [done|].
        change (x :: pre ++ repl ++ out) with ((x :: pre) ++ repl ++ out).
        by rewrite Hb, <- app_assoc.
      * exfalso. apply startswith_agree in H2. rewrite agree_sym in H2.
        by rewrite (clear_of_suffix repl t _ _ Hrt Ht Hne) in H2.
    + injection E as -> E. destruct (IH a E Hb) as [?|(b1 & p2 & -> & ->)]; [by left|].
      right. by exists (y :: b1), p2.
Qed.

(** A substitution whose pattern starts with the literal [t] leaves no
    match in its output, provided [t] cannot overlap the replacement and a
    match behind a copy of [t] makes that copy start a match too. *)
Lemma sub_leaves_no_match t r' repl s :
  apart t repl = true -> t <> [] ->
  (forall u, match_here (lits t ++ r') u <> Some 0) ->
  (forall x y, is_Some (match_here (lits t ++ r') y) ->
               is_Some (match_here (lits t ++ r') (t ++ x ++ y))) ->
  search (lits t ++ r') (sub (lits t ++ r') repl s) = false.
Proof.
  intros Hap Ht Hpos Hmono.
  remember (length s) as n eqn:Hn. revert s Hn.
  induction (lt_wf n) as [n _ IH]; intros s ->.
  destruct (search (lits t ++ r') s) eqn:Hs; [|by rewrite sub_no_match].
  destruct (sub_first_match _ repl s Hpos Hs)
    as (pre & m & rest & -> & Hne & Hm & Hpre & Hsub).
  rewrite Hsub. clear Hsub Hs.
  assert (search (lits t ++ r') (sub (lits t ++ r') repl rest) = false) as Hrest.
  { apply (IH (length rest)); [|done]. rewrite !length_app.
    destruct m; [done|simpl; lia]. }
  destruct (search _ (pre ++ repl ++ _)) eqn:Hout; [exfalso|done].
  apply search_true in Hout as (a & b & E & Hb).
  pose proof (match_here_lits_start _ _ _ Hb) as Hstart.
  destruct (start_in_output t pre repl _ a b Hap E Hstart)
    as [[a' Ha]|(b1 & p2 & -> & ->)].
  - assert (search (lits t ++ r') (sub (lits t ++ r') repl rest) = true); [|congruence].
    apply search_true. exists a', b. by rewrite <- Ha.
  - specialize (Hpre b1 (t ++ p2) eq_refl).
    assert (is_Some (match_here (lits t ++ r') (t ++ p2 ++ m ++ rest))) as [k Hk].
    { apply Hmono. rewrite Hm. eauto. }
    rewrite <- app_assoc in Hpre. rewrite Hpre in Hk; [done|].
    intros Hnil. by apply app_eq_nil in Hnil as [-> _].
Qed.

End FallbackFacts.

Section BlockFacts.

Implicit Types (s t u v c : pystr).

(** The block pattern matches at the start of a text exactly when the text
    starts with the token and holds the closing delimiter behind it. *)
Lemma match_here_block_iff s :
  is_Some (match_here pat_betting_query s) <->
  exists body rest, s = py "const bettingQuery = `" ++ body ++ py "`;" ++ rest.
Proof.
  change pat_betting_query
    with (lits (py "const bettingQuery = `") ++ [StarLazy DotAll] ++ lits (py "`;")).
  split.
  - intros [n H].
    apply match_here_lits_inv in H as (s1 & m & -> & H & _).
    cbn [app match_here] in H.
    apply star_lazy_inv in H as (body & s2 & m' & -> & _ & H & _).
    rewrite match_here_lits in H.
    destruct (startswith (py "`;") s2) eqn:E; [|done].
    apply startswith_inv in E as [rest ->]. by exists body, rest.
  - intros (body & rest & ->). rewrite match_here_lits_app.
    apply fmap_is_Some. cbn [app match_here].
    apply star_lazy_complete; [by apply Forall_forall|].
    rewrite match_here_lits, startswith_app. eauto.
Qed.

Lemma search_block_iff c : search pat_betting_query c = true <-> has_block c.
Proof.
  rewrite search_true. unfold has_block. split.
  - intros (a & b & -> & Hb). apply match_here_block_iff in Hb as (body & rest & ->).
    by exists a, body, rest.
  - intros (a & body & rest & ->). eexists a, _. split; [done|].
    apply match_here_block_iff. by exists body, rest.
Qed.

Lemma search_block_false c : search pat_betting_query c = false <-> ~ has_block c.
Proof.
  rewrite <- search_block_iff. by destruct (search pat_betting_query c).
Qed.

(** X1.  The fallback substitution acts exactly on texts that hold a block:
    with a block in the text the fallback block is in the result, and without
    one (no token, or no closing delimiter behind any token) the text comes
    back unchanged. *)
Theorem fallback_content_block_or_not c :
  (has_block c -> occurs (strip fallback_query) (fallback_content c)) /\
  (~ has_block c -> fallback_content c = c).
Proof.
  split.
  - intros H. apply search_block_iff in H.
    apply sub_occurs; [by vm_compute|done].
  - intros H. apply search_block_false in H. by apply sub_no_match.
Qed.

(** X2.  The fallback substitution is idempotent: its result holds no block
    any more, so applying it again changes nothing. *)
Theorem fallback_content_idempotent c :
  ~ has_block (fallback_content c) /\
  fallback_content (fallback_content c) = fallback_content c.
Proof.
  assert (search pat_betting_query (fallback_content c) = false) as H.
  { change pat_betting_query
      with (lits (py "const bettingQuery = `") ++ [StarLazy DotAll] ++ lits (py "`;")).
    unfold fallback_content.
    change pat_betting_query
      with (lits (py "const bettingQuery = `") ++ [StarLazy DotAll] ++ lits (py "`;")).
    apply sub_leaves_no_match.
    - by vm_compute.
    - done.
    - intros u. apply match_here_nonempty.
    - intros x y Hy.
      change (lits (py "const bettingQuery = `") ++ [StarLazy DotAll] ++ lits (py "`;"))
        with pat_betting_query in *.
      apply match_here_block_iff in Hy as (body & rest & ->).
      apply match_here_block_iff.
      exists (x ++ py "const bettingQuery = `" ++ body), rest.
      by rewrite <- !app_assoc. }
  split; [by apply search_block_false|].
  by apply sub_no_match.
Qed.

End BlockFacts.

(** ** The targeted substitutions *)

Section FixFacts.

Implicit Types (s t u v c : pystr).

Lemma occurs_search_lits t s : occurs t s -> search (lits t) s = true.
Proof.
  intros (a & b & ->). apply search_app, search_here.
  rewrite match_here_lits, startswith_app. eauto.
Qed.

(** X3.  After the four substitutions no [winnings > 0] is left in the
    text, whatever the input: the test ['winnings > 0' in content] is false
    on the result. *)
Theorem fix_content_no_bare_winnings c :
  isin (py "winnings > 0") (fix_content c) = false.
Proof.
  apply isin_not_occurs.
  intros H. apply occurs_search_lits in H. unfold fix_content in H.
  change pat_winnings with (lits (py "winnings > 0")) in H.
  rewrite <- (app_nil_r (lits (py "winnings > 0"))) in H.
  rewrite sub_leaves_no_match in H.
  - done.
  - by vm_compute.
  - done.
  - intros u. apply match_here_nonempty.
  - intros x y _. rewrite app_nil_r, match_here_lits, startswith_app. eauto.
Qed.

(** Two ways to cut one text meet inside the first part or behind it. *)
Lemma app_eq_cases (x y a b : pystr) :
  x ++ y = a ++ b ->
  (exists x2, x = a ++ x2 /\ b = x2 ++ y) \/
  (exists a2, a2 <> [] /\ a = x ++ a2 /\ y = a2 ++ b).
Proof.
  revert a. induction x as [|h x IH]; intros a E.
  - destruct a as [|h' a]; [left; by exists []|].
    right. exists (h' :: a). by repeat split.
  - destruct a as [|h' a]; [left; by exists (h :: x)|].
    injection E as -> E. destruct (IH a E) as [(x2 & -> & ->)|(a2 & Hne & -> & ->)].
    + left. by exists x2.
    + right. by exists a2.
Qed.

Lemma result_win_tail_here rest :
  match_here result_win_tail (py "result = 'win'" ++ rest) = Some 14.
Proof.
  unfold result_win_tail.
  change (py "result = 'win'")
    with (py "result" ++ py " " ++ py "=" ++ py " " ++ py "'win'").
  rewrite <- !app_assoc, match_here_lits_app. cbn [app match_here].
  rewrite (star_greedy_longest _ _ (py " ") _ 7); [done|by repeat constructor| |].
  - intros [|x b1] b2 E Hne Hb1; [done|].
    injection E as <- _. apply Forall_cons in Hb1 as [Hx _]. discriminate Hx.
  - rewrite match_here_lits_app. cbn [app match_here].
    rewrite (star_greedy_longest _ _ (py " ") _ 5); [done|by repeat constructor| |].
    + intros [|x b1] b2 E Hne Hb1; [done|].
      injection E as <- _. apply Forall_cons in Hb1 as [Hx _]. discriminate Hx.
    + by rewrite match_here_lits, startswith_app.
Qed.

Lemma match_here_where_line mid rest :
  Forall (fun x => x <> 0x0A%N) mid ->
  rest = [] \/ (exists rest', rest = 0x0A%N :: rest') ->
  match_here pat_result_win
    (py "WHERE" ++ mid ++ py "result = 'win'" ++ rest)
  = Some (length (py "WHERE" ++ mid ++ py "result = 'win'")).
Proof.
  intros Hmid Hrest.
  change pat_result_win with (lits (py "WHERE") ++ [Star Dot] ++ result_win_tail).
  rewrite match_here_lits_app. cbn [app match_here].
  rewrite (star_greedy_longest _ _ mid _ 14).
  - simpl. rewrite !length_app. simpl. f_equal; lia.
  - eapply Forall_impl; [exact Hmid|]. simpl. intros x Hx.
    apply negb_true_iff, N.eqb_neq. done.
  - intros b1 b2 E Hne Hb1. unfold result_win_tail.
    apply match_here_lits_none.
    destruct (startswith (py "result") b2) eqn:Hs; [exfalso|done].
    apply app_eq_cases in E as [(x2 & E & ->)|(a2 & Hne2 & -> & ->)].
    + destruct x2 as [|h x2].
      * simpl in Hs. destruct Hrest as [->|[rest' ->]]; done.
      * apply startswith_agree in Hs.
        destruct b1 as [|h1 b1]; [done|].
        assert (clear_of (py "result") (tail (py "result = 'win'")) = true) as Hc
          by (by vm_compute).
        rewrite (clear_of_suffix _ _ b1 (h :: x2) Hc) in Hs; [done| |done].
        by rewrite E.
    + destruct Hrest as [Hr|[rest' Hr]].
      * destruct a2; [done|]. done.
      * destruct a2 as [|h a2]; [done|]. injection Hr as -> _.
        apply Forall_app in Hb1 as [_ Hb1]. apply Forall_cons in Hb1 as [Hb1 _].
        done.
  - apply result_win_tail_here.
Qed.

(** X4.  The second substitution drops whatever stands between [WHERE] and
    a [result = 'win'] that ends its line: with no [WHERE] before, the span
    from [WHERE] to the end of the line is replaced by
    [WHERE result = 'win'::VARCHAR], other conditions of the clause
    included. *)
Theorem sub_result_win_drops_conditions (pre mid rest : pystr) :
  ~ occurs (py "WHERE") pre ->
  Forall (fun x => x <> 0x0A%N) mid ->
  rest = [] \/ (exists rest', rest = 0x0A%N :: rest') ->
  sub pat_result_win repl_result_win
    (pre ++ py "WHERE" ++ mid ++ py "result = 'win'" ++ rest)
  = pre ++ py "WHERE result = 'win'::VARCHAR"
    ++ sub pat_result_win repl_result_win rest.
Proof.
  intros Hpre Hmid Hrest. unfold sub. rewrite sub_from_keep.
  - f_equal.
    pose proof (sub_from_match pat_result_win repl_result_win
                  (py "WHERE" ++ mid ++ py "result = 'win'") rest) as Hm.
    rewrite <- !app_assoc in Hm. apply Hm; [done|].
    by apply match_here_where_line.
  - intros b1 b2 -> Hne.
    change pat_result_win with (lits (py "WHERE") ++ [Star Dot] ++ result_win_tail).
    apply match_here_lits_none.
    by apply (no_start_before_first _ (b1 ++ b2) b1 b2).
Qed.

End FixFacts.

(** ** What the scanner reports *)

Section ScanExact.

Variable str_upper : pystr -> pystr.
Implicit Types (l c : pystr) (r : issue_record) (i : Z).

(** The parameter check fires exactly on [$] followed by a digit. *)
Lemma search_parameter_iff l : search pat_parameter l = true <-> has_parameter l.
Proof.
  change pat_parameter with [One (Chr 36%N); Plus Digit].
  rewrite search_true. unfold has_parameter. split.
  - intros (a & b & -> & [n H]). exists a.
    destruct b as [|x [|d b]]; simpl in H; try done.
    + by destruct (x =? 36)%N.
    + destruct (x =? 36)%N eqn:Hx; [|done]. apply N.eqb_eq in Hx as ->.
      destruct ((48 <=? d) && (d <=? 57))%N eqn:Hd; [|done].
      apply andb_true_iff in Hd as [H1 H2].
      apply N.leb_le in H1, H2. exists d, b. split; [done|lia].
  - intros (a & d & b & -> & Hd). exists a, (0x24%N :: d :: b). split; [done|].
    simpl. assert (((48 <=? d) && (d <=? 57))%N = true) as ->.
    { apply andb_true_iff. split; apply N.leb_le; lia. }
    apply fmap_is_Some, fmap_is_Some.
    apply (star_greedy_complete _ _ [] b); [constructor|simpl; eauto].
Qed.

(** The string comparison check fires exactly on [WHERE], [=] and a quoted
    text in this order. *)
Lemma search_string_comparison_iff l :
  search pat_string_comparison l = true <-> has_string_comparison l.
Proof.
  change pat_string_comparison
    with (lits (py "WHERE") ++ [Star Dot] ++ lits (py "=") ++ [Star Dot]
          ++ lits (py "'") ++ [Star (NotChr 0x27)] ++ lits (py "'")).
  rewrite search_true. unfold has_string_comparison. split.
  - intros (a & s0 & -> & [n H]). exists a.
    apply match_here_lits_inv in H as (s1 & m1 & -> & H & _).
    cbn [app match_here] in H.
    apply star_greedy_inv in H as (b & s2 & m2 & -> & Hb & H & _).
    apply match_here_lits_inv in H as (s3 & m3 & -> & H & _).
    cbn [app match_here] in H.
    apply star_greedy_inv in H as (c & s4 & m4 & -> & Hc & H & _).
    apply match_here_lits_inv in H as (s5 & m5 & -> & H & _).
    cbn [app match_here] in H.
    apply star_greedy_inv in H as (d & s6 & m6 & -> & Hd & H & _).
    rewrite match_here_lits in H.
    destruct (startswith (py "'") s6) eqn:E; [|done].
    apply startswith_inv in E as [e ->].
    exists b, c, d, e. split; [done|]. split.
    + apply Forall_app. split; (eapply Forall_impl; [eassumption|]);
        simpl; intros x Hx ->; done.
    + eapply Forall_impl; [exact Hd|]. simpl. intros x Hx ->. done.
  - intros (a & b & c & d & e & -> & Hbc & Hd).
    apply Forall_app in Hbc as [Hb Hc].
    eexists a, _. split; [done|].
    rewrite match_here_lits_app. apply fmap_is_Some. cbn [app match_here].
    apply star_greedy_complete.
    { eapply Forall_impl; [exact Hb|]. simpl. intros x Hx.
      by apply negb_true_iff, N.eqb_neq. }
    rewrite match_here_lits_app. apply fmap_is_Some. cbn [app match_here].
    apply star_greedy_complete.
    { eapply Forall_impl; [exact Hc|]. simpl. intros x Hx.
      by apply negb_true_iff, N.eqb_neq. }
    rewrite match_here_lits_app. apply fmap_is_Some. cbn [app match_here].
    apply star_greedy_complete.
    { eapply Forall_impl; [exact Hd|]. simpl. intros x Hx.
      by apply negb_true_iff, N.eqb_neq. }
    rewrite match_here_lits, startswith_app. eauto.
Qed.

Lemma scan_line_In r i l :
  In r (scan_line str_upper [] i l) <->
  (r = Issue i (strip l) msg_string_comparison (py "medium")
   /\ search pat_string_comparison l = true) \/
  (r = Issue i (strip l) msg_parameter (py "high")
   /\ search pat_parameter l = true) \/
  (r = Issue i (strip l) msg_union (py "high")
   /\ isin (py "UNION") (str_upper l) = true).
Proof.
  unfold scan_line.
  destruct (search pat_string_comparison l), (search pat_parameter l),
           (isin (py "UNION") (str_upper l)); simpl; intuition congruence.
Qed.

Lemma scan_lines_In r (lines : list pystr) start :
  In r (scan_lines str_upper lines start []) <->
  exists j l, lines !! j = Some l /\
              In r (scan_line str_upper [] (start + Z.of_nat j) l).
Proof.
  revert start. induction lines as [|l0 lines IH]; intros start.
  - simpl. split; [done|]. by intros (j & l & ? & _).
  - rewrite scan_lines_step, in_app_iff, IH. split.
    + intros [H|(j & l & Hj & H)].
      * exists 0, l0. split; [done|]. by rewrite Z.add_0_r.
      * exists (S j), l. split; [done|].
        by replace (start + Z.of_nat (S j))%Z with (start + 1 + Z.of_nat j)%Z by lia.
    + intros ([|j] & l & Hj & H).
      * left. injection Hj as <-. by rewrite Z.add_0_r in H.
      * right. exists j, l. split; [done|].
        by replace (start + 1 + Z.of_nat j)%Z with (start + Z.of_nat (S j))%Z by lia.
Qed.

(** X5.  What the scan reports, exactly: a record is among the findings if
    and only if it is, for some line of the text (numbered from 1, with the
    line stripped as content), the string comparison finding of a line with
    [WHERE], [=] and a quoted text in this order, the parameter finding of a
    line with [$] followed by a digit, or the UNION finding of a line whose
    upper-case form holds [UNION]. *)
Theorem scan_content_exact c r :
  In r (scan_content str_upper c) <->
  exists j l,
    split 0x0A c !! j = Some l /\
    ((r = Issue (Z.of_nat j + 1) (strip l) msg_string_comparison (py "medium")
      /\ has_string_comparison l) \/
     (r = Issue (Z.of_nat j + 1) (strip l) msg_parameter (py "high")
      /\ has_parameter l) \/
     (r = Issue (Z.of_nat j + 1) (strip l) msg_union (py "high")
      /\ occurs (py "UNION") (str_upper l))).
Proof.
  unfold scan_content. cbv zeta. rewrite scan_lines_In.
  split; intros (j & l & Hj & H); exists j, l; (split; [done|]).
  - apply scan_line_In in H.
    rewrite search_string_comparison_iff, search_parameter_iff, isin_occurs in H.
    by rewrite Z.add_comm.
  - apply scan_line_In.
    rewrite search_string_comparison_iff, search_parameter_iff, isin_occurs.
    by rewrite Z.add_comm in H.
Qed.

End ScanExact.

(** ** The content of a finding *)

Section StripFacts.

Variable str_upper : pystr -> pystr.
Implicit Types (s t l c : pystr).

Lemma lstrip_split s :
  exists a, s = a ++ lstrip s /\ Forall (fun x => isspace x = true) a.
Proof.
  induction s as [|x s (a & IH & Ha)]; simpl; [by exists []|].
  destruct (isspace x) eqn:Hx; [|by exists []].
  exists (x :: a). split; [by rewrite IH at 1|by constructor].
Qed.

Lemma lstrip_head s x t : lstrip s = x :: t -> isspace x = false.
Proof.
  induction s as [|y s IH]; simpl; [done|].
  destruct (isspace y) eqn:Hy; [done|]. by intros [= <- _].
Qed.

Lemma rstrip_split s :
  exists b, s = rstrip s ++ b /\ Forall (fun x => isspace x = true) b.
Proof.
  destruct (lstrip_split (rev s)) as (a & E & Ha). exists (rev a). split.
  - unfold rstrip. rewrite <- rev_app_distr, <- E. by rewrite rev_involutive.
  - apply Forall_forall. intros x Hx. rewrite Forall_forall in Ha.
    apply Ha. apply list_elem_of_In. apply list_elem_of_In in Hx.
    by apply in_rev.
Qed.

Lemma rstrip_last s x t : rev (rstrip s) = x :: t -> isspace x = false.
Proof. unfold rstrip. rewrite rev_involutive. apply lstrip_head. Qed.

Lemma strip_split s :
  exists a b, s = a ++ strip s ++ b /\
              Forall (fun x => isspace x = true) a /\
              Forall (fun x => isspace x = true) b.
Proof.
  destruct (lstrip_split s) as (a & E & Ha).
  destruct (rstrip_split (lstrip s)) as (b & E' & Hb).
  exists a, b. split; [|done]. unfold strip. by rewrite <- E', <- E.
Qed.

Lemma strip_trimmed s : trimmed (strip s).
Proof.
  split; [|apply rstrip_last].
  intros x t Hx. unfold strip in Hx.
  destruct (rstrip_split (lstrip s)) as (b & E & _).
  rewrite Hx in E. by apply (lstrip_head s x (t ++ b)).
Qed.

(** X6.  Every finding points at a line of the text, counted from 1, and
    its content is that line without the whitespace at its two ends: the
    line is whitespace, then the content, then whitespace, and the content
    neither starts nor ends with whitespace. *)
Theorem scan_content_trimmed c :
  Forall (fun r =>
            exists j l a b,
              split 0x0A c !! j = Some l /\ line r = (Z.of_nat j + 1)%Z /\
              l = a ++ content r ++ b /\
              Forall (fun x => isspace x = true) a /\
              Forall (fun x => isspace x = true) b /\
              trimmed (content r))
         (scan_content str_upper c).
Proof.
  apply Forall_forall. intros r Hr. apply list_elem_of_In in Hr.
  unfold scan_content in Hr. cbv zeta in Hr.
  apply scan_lines_In in Hr as (j & l & Hj & Hr).
  destruct (strip_split l) as (a & b & E & Ha & Hb).
  exists j, l, a, b.
  assert (line r = (Z.of_nat j + 1)%Z /\ content r = strip l) as [Hline ->].
  { apply scan_line_In in Hr as [[-> _]|[[-> _]|[-> _]]]; simpl; split; (lia || done). }
  repeat split; try done. all: apply strip_trimmed.
Qed.

End StripFacts.

(** ** The methods on any world *)

(** [run_io] with the program entry. *)
Ltac run_main :=
  repeat first
    [ progress (cbv beta iota zeta delta [main])
    | progress run_cases ].

Section Outcomes.

Variable str_upper : pystr -> pystr.
Implicit Types (w : world) (fs : gmap pystr file) (p q c : pystr).

(** X7.  [fix_sql_query] never raises, and it returns [True] exactly when
    its write completed; the file then holds the result of the four
    substitutions on the text read.  A [False] result does not mean that the
    file is intact: either no file has changed (the read failed, or the file
    could not be opened for writing), or the write failed behind the [open]
    that had emptied the file, and the file holds what that write left. *)
Theorem fix_sql_query_outcomes w p :
  exists ok w' tr,
    fix_sql_query p w = (Ok ok, w', tr) /\
    returned OpFix ok tr = true /\
    wrote tr = ok /\
    (ok = true ->
       exists c, files w !! p = Some (File (Some c) true) /\
                 files w' = <[p := File (Some (fix_content c)) true]> (files w)) /\
    (ok = false ->
       files w' = files w \/
       exists c remnant,
         files w !! p = Some (File (Some c) true) /\
         In (EvWrite p (fix_content c) false) tr /\
         files w' = <[p := File remnant true]> (files w)).
Proof.
  destruct w as [fs later]. cbn [files].
  destruct (fs !! p) as [[[c|] [|]]|] eqn:H.
  all: repeat first [ progress (run_cases; rewrite ?H) ].
  all: do 3 eexists; (split; [reflexivity|]).
  all: cbn [app files]; cbv [returned wrote existsb]; cbn.
  all: repeat split; intros; try done; eauto.
  all: right; eexists _, _; (split; [reflexivity|split; [|reflexivity]]);
    repeat first [left; reflexivity | right].
Qed.

(** X8.  [create_simple_fallback_query] never raises, and it returns [True]
    exactly when its write completed; the file then holds the result of the
    fallback substitution on the text read.  A [False] result does not mean
    that the file is intact: either no file has changed, or the write failed
    behind the [open] that had emptied the file, and the file holds what
    that write left. *)
Theorem create_simple_fallback_query_outcomes w p :
  exists ok w' tr,
    create_simple_fallback_query p w = (Ok ok, w', tr) /\
    returned OpFallback ok tr = true /\
    wrote tr = ok /\
    (ok = true ->
       exists c, files w !! p = Some (File (Some c) true) /\
                 files w' = <[p := File (Some (fallback_content c)) true]> (files w)) /\
    (ok = false ->
       files w' = files w \/
       exists c remnant,
         files w !! p = Some (File (Some c) true) /\
         In (EvWrite p (fallback_content c) false) tr /\
         files w' = <[p := File remnant true]> (files w)).
Proof.
  destruct w as [fs later]. cbn [files].
  destruct (fs !! p) as [[[c|] [|]]|] eqn:H.
  all: repeat first [ progress (run_cases; rewrite ?H) ].
  all: do 3 eexists; (split; [reflexivity|]).
  all: cbn [app files]; cbv [returned wrote existsb]; cbn.
  all: repeat split; intros; try done; eauto.
  all: right; eexists _, _; (split; [reflexivity|split; [|reflexivity]]);
    repeat first [left; reflexivity | right].
Qed.

(** The known error string is recognised by [analyze_error]. *)
Lemma known_error_isin :
  isin known_error
    (py "operator does not exist: character varying = integer") = true.
Proof. vm_compute. reflexivity. Qed.

(** X9.  [run_diagnosis] never raises, and it returns [True] exactly when
    one of its writes completed.  The target then holds the fallback
    substitution applied to its old text, or the four targeted substitutions
    applied to its old text, or, when the write of the fallback failed
    behind its [open], the four targeted substitutions applied to what that
    failed write had left.  A [False] result does not mean that the target
    is intact: either no file has changed, or the target holds what a failed
    write left. *)
Theorem run_diagnosis_outcomes w :
  exists ok w' tr,
    run_diagnosis str_upper w = (Ok ok, w', tr) /\
    wrote tr = ok /\
    (ok = true ->
       exists c,
         files w !! target_file = Some (File (Some c) true) /\
         (files w' = <[target_file := File (Some (fallback_content c)) true]> (files w)
          \/ files w' = <[target_file := File (Some (fix_content c)) true]> (files w)
          \/ exists c1,
               In (EvWrite target_file (fallback_content c) false) tr /\
               In (EvRead target_file (Some c1)) tr /\
               files w' = <[target_file := File (Some (fix_content c1)) true]> (files w))) /\
    (ok = false ->
       files w' = files w \/
       exists c remnant,
         files w !! target_file = Some (File (Some c) true) /\
         files w' = <[target_file := File remnant true]> (files w)).
Proof.
  destruct w as [fs later]. cbn [files].
  destruct (fs !! target_file) as [[[c|] [|]]|] eqn:H.
  all: repeat first
    [ progress (run_cases; rewrite ?known_error_isin, ?H, ?lookup_insert_eq) ].
  all: do 3 eexists; (split; [reflexivity|]).
  all: cbv beta iota delta [wrote existsb app orb files].
  all: rewrite ?insert_insert_eq.
  all: repeat split; intros; try done.
  all: eauto 6.
  all: eexists; (split; [reflexivity|]); right; right; eexists;
    (split; [|split; [|reflexivity]]); repeat first [apply in_eq | apply in_cons].
Qed.

(** X10.  When the target can be read and written and no [open] fails, the
    fallback always wins: whatever the text [c] of the target,
    [run_diagnosis] returns [True], reports the number of findings of the
    scan of [c], leaves the target with the fallback substitution applied,
    and never enters [fix_sql_query]. *)
Theorem run_diagnosis_fallback_wins fs c :
  fs !! target_file = Some (File (Some c) true) ->
  exists tr,
    run_diagnosis str_upper (World fs []) =
      (Ok true,
       World (<[target_file := File (Some (fallback_content c)) true]> fs) [],
       tr) /\
    called OpFix tr = false /\
    In (EvPrint [FLit ([0x1F50D%N] ++ py " Found ");
                 FInt (Z.of_nat (length (scan_content str_upper c)));
                 FLit (py " potential issues")]) tr /\
    In (EvWrite target_file (fallback_content c) true) tr.
Proof.
  intros H.
  repeat first [ progress (run_cases; rewrite ?known_error_isin, ?H) ].
  eexists. split; [reflexivity|]. cbn [app].
  split; [reflexivity|]. split; simpl; auto 25.
Qed.

(** X12.  The program never ends in an exception, and its closing lines
    tell what happened to the file: it prints the success line exactly when
    a write succeeded during the run, and the failure line exactly when none
    did. *)
Theorem main_reports_writes w :
  exists w' tr,
    main str_upper w = (Ok tt, w', tr) /\
    printed ([0x1F389%N] ++ py " Database Debug Agent completed successfully!") tr
      = wrote tr /\
    printed ([0x274C%N] ++ py " Database Debug Agent failed to fix the issue") tr
      = negb (wrote tr).
Proof.
  destruct w as [fs later].
  destruct (fs !! target_file) as [[[c|] [|]]|] eqn:H.
  all: repeat first
    [ progress (run_main; rewrite ?known_error_isin, ?H, ?lookup_insert_eq) ].
  all: do 2 eexists; (split; [reflexivity|]).
  all: split; vm_compute; reflexivity.
Qed.

End Outcomes.

(** ** The targeted substitutions on texts without ['win'] *)

Section Scenarios.

Implicit Types (r : regex) (s t u v c repl : pystr).

(** A substitution puts no copy of [t] into a text that had none, when [t]
    cannot overlap the replacement. *)
Lemma sub_creates_no r repl t s :
  apart t repl = true ->
  (forall u, match_here r u <> Some 0) ->
  ~ occurs t s -> ~ occurs t (sub r repl s).
Proof.
  intros Hap Hpos.
  remember (length s) as n eqn:Hn. revert s Hn.
  induction (lt_wf n) as [n _ IH]; intros s -> Hs.
  destruct (search r s) eqn:Hsearch; [|by rewrite sub_no_match].
  destruct (sub_first_match r repl s Hpos Hsearch)
    as (pre & m & rest & -> & Hne & _ & _ & ->).
  intros (a & b & E).
  destruct (start_in_output t pre repl _ a (t ++ b) Hap E (startswith_app t b))
    as [[a' Ha]|(b1 & p2 & -> & _)].
  - apply (IH (length rest)) with (s := rest); [|done| |by exists a', b].
    + rewrite !length_app. destruct m; [done|simpl; lia].
    + intros Hr. apply Hs. by apply occurs_app_l, occurs_app_l.
  - apply Hs. exists b1, (p2 ++ m ++ rest). by rewrite <- !app_assoc.
Qed.

(** A match of the second pattern holds ['win']. *)
Lemma search_result_win_quoted s :
  search pat_result_win s = true -> occurs (py "'win'") s.
Proof.
  change pat_result_win with (lits (py "WHERE") ++ [Star Dot] ++ result_win_tail).
  intros H. apply search_true in H as (a & s0 & -> & [n H]).
  apply occurs_app_l.
  apply match_here_lits_inv in H as (s1 & m1 & -> & H & _).
  apply occurs_app_l. cbn [app match_here] in H.
  apply star_greedy_inv in H as (b & s2 & m2 & -> & _ & H & _).
  apply occurs_app_l. unfold result_win_tail in H.
  apply match_here_lits_inv in H as (s3 & m3 & -> & H & _).
  apply occurs_app_l. cbn [app match_here] in H.
  apply star_greedy_inv in H as (b' & s4 & m4 & -> & _ & H & _).
  apply occurs_app_l.
  apply match_here_lits_inv in H as (s5 & m5 & -> & H & _).
  apply occurs_app_l. cbn [app match_here] in H.
  apply star_greedy_inv in H as (b'' & s6 & m6 & -> & _ & H & _).
  apply occurs_app_l. rewrite match_here_lits in H.
  destruct (startswith (py "'win'") s6) eqn:E; [|done].
  apply startswith_inv in E as [e ->]. by exists [], e.
Qed.

(** X13.  In a text without ['win'] the second substitution finds nothing
    to replace, and then every target of the other three ends up annotated:
    a text with [[userId.toString()]] yields one with [[userId]], a text with
    [LIMIT $2] one with [LIMIT $2::INTEGER], and a text with [winnings > 0]
    one with [winnings::NUMERIC > 0]. *)
Theorem fix_content_without_win c :
  ~ occurs (py "'win'") c ->
  (occurs (py "[userId.toString()]") c -> occurs (py "[userId]") (fix_content c)) /\
  (occurs (py "LIMIT $2") c -> occurs (py "LIMIT $2::INTEGER") (fix_content c)) /\
  (occurs (py "winnings > 0") c -> occurs (py "winnings::NUMERIC > 0") (fix_content c)).
Proof.
  intros Hwin. unfold fix_content.
  assert (sub pat_result_win repl_result_win (sub pat_user_id repl_user_id c)
          = sub pat_user_id repl_user_id c) as ->.
  { apply sub_no_match.
    destruct (search pat_result_win _) eqn:E; [exfalso|done].
    apply search_result_win_quoted in E. revert E.
    apply sub_creates_no; [by vm_compute| |done].
    intros u. apply match_here_nonempty. }
  repeat split; intros H.
  - apply (sub_lits_keeps (py "winnings > 0")); [by vm_compute|].
    apply (sub_lits_keeps (py "LIMIT $2")); [by vm_compute|].
    apply sub_occurs; [by vm_compute|]. by apply occurs_search_lits.
  - apply (sub_lits_keeps (py "winnings > 0")); [by vm_compute|].
    apply sub_occurs; [by vm_compute|]. apply occurs_search_lits.
    by apply (sub_lits_keeps (py "[userId.toString()]")); [by vm_compute|].
  - apply sub_occurs; [by vm_compute|]. apply occurs_search_lits.
    apply (sub_lits_keeps (py "LIMIT $2")); [by vm_compute|].
    by apply (sub_lits_keeps (py "[userId.toString()]")); [by vm_compute|].
Qed.

End Scenarios.

(** ** A second run of the targeted substitutions *)

Section SecondRun.

Implicit Types (s t c : pystr).

Lemma search_lits_occurs t s : search (lits t) s = true -> occurs t s.
Proof.
  intros H. apply search_true in H as (a & b & -> & Hb).
  rewrite match_here_lits in Hb.
  destruct (startswith t b) eqn:E; [|by destruct Hb].
  apply startswith_inv in E as [b' ->]. by exists a, b'.
Qed.

(** A literal pattern that cannot overlap its replacement is gone after
    its substitution. *)
Lemma sub_lits_no_match t repl s :
  apart t repl = true -> t <> [] ->
  search (lits t) (sub (lits t) repl s) = false.
Proof.
  intros Hap Ht. rewrite <- (app_nil_r (lits t)).
  apply sub_leaves_no_match; [done..| |].
  - intros u. rewrite app_nil_r, match_here_lits.
    destruct (startswith t u); [|done]. destruct t; [done|]. simpl. done.
  - intros x y _. rewrite app_nil_r, match_here_lits, startswith_app. eauto.
Qed.

(** The first pattern is gone after the first substitution, and none of the
    three replacements that follow can bring it back. *)
Lemma fix_content_no_user_id c : search pat_user_id (fix_content c) = false.
Proof.
  destruct (search pat_user_id (fix_content c)) eqn:E; [exfalso|done].
  apply search_lits_occurs in E. revert E. unfold fix_content.
  apply sub_creates_no; [by vm_compute|intros u; apply match_here_nonempty|].
  apply sub_creates_no; [by vm_compute|intros u; apply match_here_nonempty|].
  apply sub_creates_no; [by vm_compute|intros u; apply match_here_nonempty|].
  intros H. apply occurs_search_lits in H.
  change (lits (py "[userId.toString()]")) with pat_user_id in H.
  unfold pat_user_id, lit in H. by rewrite sub_lits_no_match in H.
Qed.

(** The fourth pattern is gone after the fourth substitution, the last. *)
Lemma fix_content_no_winnings c : search pat_winnings (fix_content c) = false.
Proof. unfold fix_content, pat_winnings, lit. by apply sub_lits_no_match. Qed.

(** C2, as the code has it.  After one run of the four substitutions the
    first pattern ([[userId.toString()]]) and the fourth ([winnings > 0])
    match nowhere in the result, whatever the text.  The second and the
    third can still match, their replacements holding them; where they do
    not, a second run leaves the text unchanged. *)
Theorem fix_content_second_run c :
  search pat_user_id (fix_content c) = false /\
  search pat_winnings (fix_content c) = false /\
  (search pat_result_win (fix_content c) = false ->
   search pat_limit (fix_content c) = false ->
   fix_content (fix_content c) = fix_content c).
Proof.
  pose proof (fix_content_no_user_id c) as H1.
  pose proof (fix_content_no_winnings c) as H4.
  repeat split; [done..|]. intros H2 H3. by apply fix_content_no_match.
Qed.

End SecondRun.

(** * Concrete runs of the further properties *)

(** A clause with a user filter before [result = 'win']: the filter is
    gone after the second substitution. *)
Lemma sub_result_win_drops_conditions_witness :
  sub pat_result_win repl_result_win
    (py "SELECT * FROM bets " ++ py "WHERE" ++ py " user_id = $1 AND "
     ++ py "result = 'win'" ++ py "
ORDER BY placed_at")
  = py "SELECT * FROM bets " ++ py "WHERE result = 'win'::VARCHAR"
    ++ sub pat_result_win repl_result_win (py "
ORDER BY placed_at").
Proof.
  apply (sub_result_win_drops_conditions
           (py "SELECT * FROM bets ") (py " user_id = $1 AND ") (py "
ORDER BY placed_at")).
  - apply isin_not_occurs. vm_compute. reflexivity.
  - vm_compute. repeat constructor; discriminate.
  - right. eexists. vm_compute. reflexivity.
Defined.

(** A target with two blocks, read and written without failure. *)
Lemma run_diagnosis_fallback_wins_witness :
  exists tr,
    run_diagnosis ascii_upper
      (World {[ target_file := File (Some two_blocks) true ]} [])
    = (Ok true,
       World (<[target_file := File (Some (fallback_content two_blocks)) true]>
                {[ target_file := File (Some two_blocks) true ]}) [],
       tr) /\
    called OpFix tr = false.
Proof.
  destruct (run_diagnosis_fallback_wins ascii_upper
              {[ target_file := File (Some two_blocks) true ]} two_blocks)
    as (tr & Hrun & Hfix & _).
  - vm_compute. reflexivity.
  - exists tr. by split.
Defined.

(** A text with the three other targets and no ['win']. *)
Lemma fix_content_without_win_witness :
  occurs (py "[userId]")
    (fix_content (py "LIMIT $2 -- winnings > 0 [userId.toString()]")) /\
  occurs (py "LIMIT $2::INTEGER")
    (fix_content (py "LIMIT $2 -- winnings > 0 [userId.toString()]")) /\
  occurs (py "winnings::NUMERIC > 0")
    (fix_content (py "LIMIT $2 -- winnings > 0 [userId.toString()]")).
Proof.
  destruct (fix_content_without_win
              (py "LIMIT $2 -- winnings > 0 [userId.toString()]"))
    as (H1 & H2 & H3).
  - apply isin_not_occurs. vm_compute. reflexivity.
  - repeat split; [apply H1|apply H2|apply H3];
      apply isin_occurs; vm_compute; reflexivity.
Defined.

(** After a run that only met the first and the fourth pattern, nothing is
    left to match and the second run changes nothing. *)
Lemma fix_content_second_run_witness :
  fix_content (fix_content (py "WHERE winnings > 0 AND id IN [userId.toString()]"))
  = fix_content (py "WHERE winnings > 0 AND id IN [userId.toString()]").
Proof.
  destruct (fix_content_second_run
              (py "WHERE winnings > 0 AND id IN [userId.toString()]"))
    as (_ & _ & H).
  apply H; vm_compute; reflexivity.
Defined.

(** A write of the fallback that fails behind its [open]: the method returns
    [False] and the file, emptied by the [open], holds what the write
    left. *)
Example fallback_failed_write_leaves_remnant :
  (create_simple_fallback_query target_file
     (World {[ target_file := File (Some two_blocks) true ]}
            [NoFault; BodyFails (Some [])])).1
  = (Ok false, World {[ target_file := File (Some []) true ]} []).
Proof. vm_compute. reflexivity. Qed.

(** The same failure inside a run: the targeted fixes then work on what the
    failed write left, and the run returns [True] with a cut file. *)
Example run_after_failed_fallback_write :
  (run_diagnosis ascii_upper
     (World {[ target_file := File (Some two_blocks) true ]}
            [NoFault; NoFault; BodyFails (Some (py "const bet"))])).1
  = (Ok true, World {[ target_file := File (Some (py "const bet")) true ]} []).
Proof. vm_compute. reflexivity. Qed.
